(** * MTAPI: the refresh-and-cache engine of [mtapi/mtapi.py]

    A shallow embedding of the [Mtapi] class and of its inner [_Station]
    class, followed by the properties of the specification that can be
    stated about it.

    Conventions of the embedding.
    - A Python exception is a value: fallible code returns a [pyres].
    - A [datetime] is the integer number of microseconds since the epoch
      (the resolution of [datetime]); a [timedelta] is a number of
      microseconds.
    - [str] is Rocq's [string]; [upper] and [rstrip] act on ASCII letters,
      which is what stop and route identifiers are made of.
    - A Python [int] is an integer, a [float] a primitive binary64 float;
      the point of [get_by_point] is a pair of floats.
    - The [dict] of stations keeps its insertion order, so it is an
      association list; dictionaries that are only looked up and merged are
      [gmap]s, Python sets are [gset]s.
    - What the outside world answers during a call (the clock, the feeds,
      the timer helper, the [pow] of the C library) is an explicit
      argument. *)

From Stdlib Require Import ZArith Lia Ascii String List Sorted Permutation PrimFloat.
From Stdlib Require FloatAxioms SpecFloat FloatOps.
From stdpp Require Import gmap strings list fin_maps.

Local Open Scope Z_scope.

(** ** Python results *)

Inductive exn : Type :=
| KeyError
| IndexError
| TypeError
| ValueError
| OverflowError
| AttributeError
| UnboundLocalError.

Inductive pyres (A : Type) : Type :=
| Ret (a : A)
| Raise (e : exn).

Arguments Ret {A} a.
Arguments Raise {A} e.

#[global] Instance pyres_bind : MBind pyres :=
  fun A B (k : A -> pyres B) (m : pyres A) =>
    match m with
    | Ret a => k a
    | Raise e => Raise e
    end.

(** A [for] loop whose body may raise: the accumulator is the state the
    body mutates. *)
Fixpoint for_each {A S : Type} (body : S -> A -> pyres S) (l : list A) (s : S)
  : pyres S :=
  match l with
  | [] => Ret s
  | x :: rest => s' ← body s x; for_each body rest s'
  end.

(** A list comprehension whose element expression may raise. *)
Fixpoint comprehension {A B : Type} (f : A -> pyres B) (l : list A)
  : pyres (list B) :=
  match l with
  | [] => Ret []
  | x :: rest => y ← f x; ys ← comprehension f rest; Ret (y :: ys)
  end.

(** ** Strings *)

(** [str.upper] on ASCII letters. *)
Definition upper_ascii (c : ascii) : ascii :=
  let n := nat_of_ascii c in
  if ((97 <=? n) && (n <=? 122))%nat then ascii_of_nat (n - 32) else c.

Fixpoint upper (s : string) : string :=
  match s with
  | EmptyString => EmptyString
  | String c rest => String (upper_ascii c) (upper rest)
  end.

Definition is_NS (c : ascii) : bool :=
  Ascii.eqb c "N"%char || Ascii.eqb c "S"%char.

(** [s.rstrip('NS')]: every trailing character that is [N] or [S] goes. *)
Fixpoint rstrip_NS (s : string) : string :=
  match s with
  | EmptyString => EmptyString
  | String c rest =>
      match rstrip_NS rest with
      | EmptyString => if is_NS c then EmptyString else String c EmptyString
      | kept => String c kept
      end
  end.

(** [s[0]] *)
Definition first_char (s : string) : pyres string :=
  match s with
  | EmptyString => Raise IndexError
  | String c _ => Ret (String c EmptyString)
  end.

(** ** Lists: [sorted], slices *)

Section Sorting.
Context {K A : Type} (ltb : K -> K -> bool).

(** [x] goes in front of the first element that is not smaller than it:
    elements with equal keys keep their order. *)
Fixpoint insert_sorted (x : K * A) (l : list (K * A)) : list (K * A) :=
  match l with
  | [] => [x]
  | y :: rest =>
      if ltb (fst y) (fst x) then y :: insert_sorted x rest
      else x :: y :: rest
  end.

Definition stable_sort (l : list (K * A)) : list (K * A) :=
  foldr insert_sorted [] l.

(** [a] may stand before [b] in a sorted list: the key of [b] is not the
    smaller one. *)
Definition key_le (a b : K * A) : Prop := ltb (fst b) (fst a) = false.

(** [sorted(l, key=key)]: decorate, sort stably, undecorate. Python's sort
    is stable, and a stable sort has one possible result. *)
Definition sorted (key : A -> K) (l : list A) : list A :=
  map snd (stable_sort (map (fun x => (key x, x)) l)).
End Sorting.

Section SortingWithErrors.
Context {K A : Type} (lt : K -> K -> pyres bool).

Fixpoint insert_by (x : K * A) (l : list (K * A)) : pyres (list (K * A)) :=
  match l with
  | [] => Ret [x]
  | y :: rest =>
      smaller ← lt (fst y) (fst x);
      if smaller : bool then rest' ← insert_by x rest; Ret (y :: rest')
      else Ret (x :: y :: rest)
  end.

(** [l.sort(key=...)] where comparing two keys may raise. A list of fewer
    than two elements is sorted without any comparison. In a longer list
    every key is compared with another one, and keys of two kinds that
    cannot be compared meet in some comparison, so that the sort raises
    whatever the order of its comparisons; when no comparison raises the
    result is that of the stable sort. What a sort makes of keys that are
    not numbers (NaN) is not modelled beyond this function. *)
Fixpoint list_sort (l : list (K * A)) : pyres (list (K * A)) :=
  match l with
  | [] => Ret []
  | x :: rest => sorted_rest ← list_sort rest; insert_by x sorted_rest
  end.
End SortingWithErrors.

(** [l[:stop]] for an integer [stop]; a negative [stop] counts from the
    end. *)
Definition slice_to {A : Type} (stop : Z) (l : list A) : list A :=
  if stop <? 0 then take (Z.to_nat (Z.of_nat (length l) + stop)) l
  else take (Z.to_nat stop) l.

(** A list is falsy when it is empty. *)
Definition is_empty {A : Type} (l : list A) : bool :=
  match l with
  | [] => true
  | _ :: _ => false
  end.

(** ** Insertion-ordered dictionaries *)

Fixpoint dict_get {V : Type} (k : string) (d : list (string * V)) : option V :=
  match d with
  | [] => None
  | (k', v) :: rest => if String.eqb k k' then Some v else dict_get k rest
  end.

(** [d[k] = v] for a key that is present: the entry keeps its place. *)
Fixpoint dict_replace {V : Type} (k : string) (v : V) (d : list (string * V))
  : list (string * V) :=
  match d with
  | [] => []
  | (k', v') :: rest =>
      if String.eqb k k' then (k', v) :: rest
      else (k', v') :: dict_replace k v rest
  end.

(** ** The data model *)

(** A value of the station catalog, as [json.load] returns it: a number
    written without fraction or exponent is an [int], any other number a
    binary64 [float]. *)
#[warnings="-register-all"]
Inductive jvalue : Type :=
| JNull
| JBool (b : bool)
| JInt (n : Z)
| JNum (x : float)
| JStr (s : string)
| JList (items : list jvalue)
| JDict (items : list (string * jvalue)).

(** An element of a station's train lists: [{'route': .., 'time': ..}]. *)
Record train : Type := mk_train {
  train_route : string;
  train_time : Z
}.

(** An element of a station's alerts: [{'type': .., 'header_text': ..}]. *)
Record alert : Type := mk_alert {
  alert_type : string;
  alert_header_text : string
}.

(** [Mtapi._Station]. The [trains] dictionary has exactly the keys ['N']
    and ['S'] from [__init__] on: it is the two fields [trains_N] and
    [trains_S]. *)
Record _Station : Type := mk_Station {
  json : gmap string jvalue;
  trains_N : list train;
  trains_S : list train;
  routes : gset string;
  alerts : list alert;
  last_update : option Z
}.

(** [_Station.__getitem__] *)
Definition station_getitem (key : string) (self : _Station) : pyres jvalue :=
  match json self !! key with
  | Some v => Ret v
  | None => Raise KeyError
  end.

(** [_Station.add_train] *)
Definition add_train (route_id direction : string) (train_time feed_time : Z)
    (self : _Station) : pyres _Station :=
  let new_routes := routes self ∪ {[route_id]} in
  let entry := mk_train route_id train_time in
  if String.eqb direction "N" then
    Ret (mk_Station (json self) (trains_N self ++ [entry]) (trains_S self)
           new_routes (alerts self) (Some feed_time))
  else if String.eqb direction "S" then
    Ret (mk_Station (json self) (trains_N self) (trains_S self ++ [entry])
           new_routes (alerts self) (Some feed_time))
  else Raise KeyError.

(** [_Station.add_alert] *)
Definition add_alert (alert_type alert_text : string) (self : _Station)
  : _Station :=
  if existsb (fun a => String.eqb (alert_header_text a) alert_text)
       (alerts self)
  then self
  else mk_Station (json self) (trains_N self) (trains_S self) (routes self)
         (alerts self ++ [mk_alert alert_type alert_text]) (last_update self).

(** [_Station.clear_train_data] *)
Definition clear_train_data (self : _Station) : _Station :=
  mk_Station (json self) [] [] ∅ [] None.

(** [_Station.__init__] *)
Definition new_Station (json : gmap string jvalue) : _Station :=
  mk_Station json [] [] ∅ [] None.

(** [_Station.sort_trains] *)
Definition sort_trains (max_trains : Z) (self : _Station) : _Station :=
  let s := slice_to max_trains (sorted Z.ltb train_time (trains_S self)) in
  let n := slice_to max_trains (sorted Z.ltb train_time (trains_N self)) in
  mk_Station (json self) n s (routes self) (alerts self) (last_update self).

(** A value of a serialized station: a catalog value or one of the five
    derived fields. *)
Inductive value : Type :=
| Catalog (v : jvalue)
| Alerts (l : list alert)
| Trains (l : list train)
| Routes (s : gset string)
| LastUpdate (t : option Z).

(** The dictionary [out] that [serialize] starts from. *)
Definition derived_fields (self : _Station) : gmap string value :=
  <["service_alerts" := Alerts (alerts self)]>
  (<["N" := Trains (trains_N self)]>
  (<["S" := Trains (trains_S self)]>
  (<["routes" := Routes (routes self)]>
  (<["last_update" := LastUpdate (last_update self)]> ∅)))).

(** [_Station.serialize]: [out.update(self.json)] lets the catalog win on
    every key both have, which is the left-biased union. *)
Definition serialize (self : _Station) : gmap string value :=
  let out := derived_fields self in
  (Catalog <$> json self) ∪ out.

(** ** The feeds

    [mtaproto.feedresponse] (the decoded GTFS-realtime messages and the
    [Trip] and [TripStop] wrappers) is outside this module: the records
    below carry what [mtapi.py] reads from them. *)

(** [TripStop(update)]: its [time] and [stop_id]. *)
Record TripStop : Type := mk_TripStop {
  TripStop_time : Z;
  TripStop_stop_id : string
}.

(** An [active_period] of an alert, in seconds; [end] is 0 when unset. *)
Record TimeRange : Type := mk_TimeRange {
  period_start : Z;
  period_end : Z
}.

(** An [informed_entity] of an alert; [None] is a field for which
    [HasField] is false. *)
Record EntitySelector : Type := mk_EntitySelector {
  informed_stop_id : option string;
  informed_route_id : option string
}.

(** A translation of an alert's [header_text]. *)
Record Translation : Type := mk_Translation {
  translation_language : string;
  translation_text : string
}.

(** A feed entity, with what [Trip(entity)] answers. *)
Record FeedEntity : Type := mk_FeedEntity {
  trip_is_valid : bool;
  trip_direction : string;
  trip_route_id : string;
  stop_time_update : list TripStop;
  active_period : list TimeRange;
  informed_entity : list EntitySelector;
  header_text_translation : list Translation
}.

Record FeedResponse : Type := mk_FeedResponse {
  entity : list FeedEntity;
  timestamp : Z
}.

(** What the outside world answers during one call of [_update]:
    [datetime.datetime.now(TZ)], and for each URL what [_load_mta_feed]
    returns ([None] for its [False]). *)
Record Outside : Type := mk_Outside {
  now : Z;
  _load_mta_feed : string -> option FeedResponse
}.

(** ** The [Mtapi] object *)

Record Mtapi : Type := mk_Mtapi {
  _MAX_TRAINS : Z;
  _MAX_MINUTES : Z;
  _EXPIRES_SECONDS : Z;
  _THREADED : bool;
  _GET_SERVICE_ALERTS : bool;
  _stations : list (string * _Station);
  _stops_to_stations : gmap string string;
  _routes : gmap string (gset string);
  _last_update : Z
}.

Definition _FEED_URLS : list string :=
  [ "https://api-endpoint.mta.info/Dataservice/mtagtfsfeeds/nyct%2Fgtfs";
    "https://api-endpoint.mta.info/Dataservice/mtagtfsfeeds/nyct%2Fgtfs-l";
    "https://api-endpoint.mta.info/Dataservice/mtagtfsfeeds/nyct%2Fgtfs-nqrw";
    "https://api-endpoint.mta.info/Dataservice/mtagtfsfeeds/nyct%2Fgtfs-bdfm";
    "https://api-endpoint.mta.info/Dataservice/mtagtfsfeeds/nyct%2Fgtfs-ace";
    "https://api-endpoint.mta.info/Dataservice/mtagtfsfeeds/nyct%2Fgtfs-si";
    "https://api-endpoint.mta.info/Dataservice/mtagtfsfeeds/nyct%2Fgtfs-jz";
    "https://api-endpoint.mta.info/Dataservice/mtagtfsfeeds/nyct%2Fgtfs-g" ]%string.

Definition _SERVICE_ALERT_URL : string :=
  "https://api-endpoint.mta.info/Dataservice/mtagtfsfeeds/camsys%2Fsubway-alerts".

(** [timedelta(minutes = m)] *)
Definition timedelta_minutes (m : Z) : Z := m * 60000000.

(** [int(t.timestamp())]: whole seconds, truncated towards zero. *)
Definition int_timestamp (t : Z) : Z := Z.quot t 1000000.

(** Iterating a catalog dictionary: its keys, in order. [__init__] calls
    [.keys()] on the stops of every station, so that only a dictionary gets
    past the constructor; iterating anything else is reported as
    [TypeError]. *)
Definition dict_keys (v : jvalue) : pyres (list string) :=
  match v with
  | JDict items => Ret (map fst items)
  | _ => Raise TypeError
  end.

(** [v.keys()] *)
Definition keys (v : jvalue) : pyres (list string) :=
  match v with
  | JDict items => Ret (map fst items)
  | _ => Raise AttributeError
  end.

(** [Mtapi._build_stops_index] *)
Definition _build_stops_index (stations : list (string * _Station))
  : pyres (gmap string string) :=
  for_each
    (fun (stops : gmap string string) '(station_id, station) =>
       v ← station_getitem "stops" station;
       stop_ids ← keys v;
       Ret (foldl (fun stops stop_id => <[stop_id := station_id]> stops)
              stops stop_ids))
    stations ∅.

(** [Mtapi._is_alert_currently_active] *)
Definition _is_alert_currently_active (entity : FeedEntity)
    (current_timestamp : Z) : bool :=
  existsb
    (fun period =>
       (period_start period <=? current_timestamp)
       && ((period_end period =? 0) || (current_timestamp <=? period_end period)))
    (active_period entity).

(** The local variable [english_text] of [_get_alert_text] is unbound
    before the loop, and set to [None] at the start of every iteration. *)
Fixpoint _get_alert_text_loop (translations : list Translation)
    (language : string) (english_text : option (option string))
  : pyres (option string) :=
  match translations with
  | [] =>
      match english_text with
      | Some v => Ret v
      | None => Raise UnboundLocalError
      end
  | translation :: rest =>
      if String.eqb (translation_language translation) language then
        Ret (Some (translation_text translation))
      else if String.eqb (translation_language translation) "en" then
        _get_alert_text_loop rest language
          (Some (Some (translation_text translation)))
      else _get_alert_text_loop rest language (Some None)
  end.

(** [Mtapi._get_alert_text] *)
Definition _get_alert_text (entity : FeedEntity) (language : string)
  : pyres (option string) :=
  _get_alert_text_loop (header_text_translation entity) language None.

(** [Mtapi._get_station_routes] *)
Definition _get_station_routes (station : _Station) : gset string :=
  list_to_set (map train_route (trains_N station ++ trains_S station)).

(** [Mtapi._alert_applies_to_stop] *)
Definition _alert_applies_to_stop (informed : EntitySelector)
    (station_stops : list string) : bool :=
  match informed_stop_id informed with
  | None => false
  | Some alert_stop =>
      let alert_stop_base := rstrip_NS alert_stop in
      existsb
        (fun stop => String.eqb stop alert_stop || String.eqb stop alert_stop_base)
        station_stops
  end.

(** ** [Mtapi._update] *)

(** The two working structures of a rebuild: the copy of the stations and
    the [defaultdict(set)] of routes. *)
Definition working : Type :=
  (list (string * _Station) * gmap string (gset string))%type.

(** [routes[route_id].add(stop_id)] on the [defaultdict(set)]. *)
Definition routes_add (route_id stop_id : string)
    (routes : gmap string (gset string)) : gmap string (gset string) :=
  <[route_id := default ∅ (routes !! route_id) ∪ {[stop_id]}]> routes.

(** The body of [for update in entity.trip_update.stop_time_update]. *)
Definition stop_time_update_body (self : Mtapi) (max_time : Z)
    (route_id direction : string) (feed_timestamp : Z)
    (acc : working) (update : TripStop) : pyres working :=
  let trip_stop := update in
  if (TripStop_time trip_stop <? _last_update self)
     || (max_time <? TripStop_time trip_stop)
  then Ret acc
  else
    let stop_id := TripStop_stop_id trip_stop in
    match _stops_to_stations self !! stop_id with
    | None => Ret acc
    | Some station_id =>
        match dict_get station_id (fst acc) with
        | None => Raise KeyError
        | Some station =>
            station' ← add_train route_id direction (TripStop_time trip_stop)
                         feed_timestamp station;
            Ret (dict_replace station_id station' (fst acc),
                 routes_add route_id stop_id (snd acc))
        end
    end.

(** The body of [for entity in mta_data.entity]. *)
Definition entity_body (self : Mtapi) (max_time feed_timestamp : Z)
    (acc : working) (entity : FeedEntity) : pyres working :=
  if negb (trip_is_valid entity) then Ret acc
  else
    direction ← first_char (trip_direction entity);
    let route_id := upper (trip_route_id entity) in
    for_each (stop_time_update_body self max_time route_id direction feed_timestamp)
      (stop_time_update entity) acc.

(** The body of [for i, feed_url in enumerate(self._FEED_URLS)]. *)
Definition feed_body (w : Outside) (self : Mtapi) (acc : working)
    (feed_url : string) : pyres working :=
  match _load_mta_feed w feed_url with
  | None => Ret acc
  | Some mta_data =>
      let max_time := _last_update self + timedelta_minutes (_MAX_MINUTES self) in
      for_each (entity_body self max_time (timestamp mta_data))
        (entity mta_data) acc
  end.

(** [informed.HasField('route_id') and informed.route_id in station_routes] *)
Definition route_applies (informed : EntitySelector)
    (station_routes : gset string) : bool :=
  match informed_route_id informed with
  | Some route_id => bool_decide (route_id ∈ station_routes)
  | None => false
  end.

(** [for informed in alert_entity.alert.informed_entity], with its two
    [break]s. *)
Fixpoint informed_loop (informed_entities : list EntitySelector)
    (station_routes : gset string) (alert_text : string) (station : _Station)
  : pyres _Station :=
  match informed_entities with
  | [] => Ret station
  | informed :: rest =>
      stops ← station_getitem "stops" station;
      station_stops ← dict_keys stops;
      if _alert_applies_to_stop informed station_stops then
        Ret (add_alert "stop" alert_text station)
      else if route_applies informed station_routes then
        Ret (add_alert "route" alert_text station)
      else informed_loop rest station_routes alert_text station
  end.

(** The body of [for alert_entity in service_alerts]; [not alert_text]
    holds of [None] and of the empty string. *)
Definition alert_body (station_routes : gset string) (station : _Station)
    (alert_entity : FeedEntity) : pyres _Station :=
  alert_text ← _get_alert_text alert_entity "en-html";
  match alert_text with
  | None => Ret station
  | Some EmptyString => Ret station
  | Some text =>
      informed_loop (informed_entity alert_entity) station_routes text station
  end.

(** The body of [for station_id, station in stations.items()]. *)
Definition station_alerts_body (service_alerts : list FeedEntity)
    (item : string * _Station) : pyres (string * _Station) :=
  let station_routes := _get_station_routes (snd item) in
  station ← for_each (alert_body station_routes) service_alerts (snd item);
  Ret (fst item, station).

Definition set_last_update (t : Z) (self : Mtapi) : Mtapi :=
  mk_Mtapi (_MAX_TRAINS self) (_MAX_MINUTES self) (_EXPIRES_SECONDS self)
    (_THREADED self) (_GET_SERVICE_ALERTS self) (_stations self)
    (_stops_to_stations self) (_routes self) t.

(** The assignments under [with self._read_lock] that publish a rebuild. *)
Definition publish (built : working) (self : Mtapi) : Mtapi :=
  mk_Mtapi (_MAX_TRAINS self) (_MAX_MINUTES self) (_EXPIRES_SECONDS self)
    (_THREADED self) (_GET_SERVICE_ALERTS self) (fst built)
    (_stops_to_stations self) (snd built) (_last_update self).

(** The active alerts of this cycle. *)
Definition fetch_service_alerts (w : Outside) (self : Mtapi) : list FeedEntity :=
  if _GET_SERVICE_ALERTS self then
    match _load_mta_feed w _SERVICE_ALERT_URL with
    | Some service_alerts_feed =>
        let current_timestamp := int_timestamp (_last_update self) in
        List.filter
          (fun entity => _is_alert_currently_active entity current_timestamp)
          (entity service_alerts_feed)
    | None => []
    end
  else [].

(** The first half of a rebuild: the cleared copy of the stations, filled
    from the trip feeds. *)
Definition collect_trains (w : Outside) (self : Mtapi) : pyres working :=
  let stations :=
    map (fun item => (fst item, clear_train_data (snd item))) (_stations self) in
  for_each (feed_body w self) _FEED_URLS (stations, ∅).

(** The second half: sort, truncate, attach the alerts. *)
Definition finish_stations (self : Mtapi) (service_alerts : list FeedEntity)
    (stations : list (string * _Station)) : pyres (list (string * _Station)) :=
  let stations :=
    map (fun item => (fst item, sort_trains (_MAX_TRAINS self) (snd item)))
      stations in
  if _GET_SERVICE_ALERTS self && negb (is_empty service_alerts) then
    comprehension (station_alerts_body service_alerts) stations
  else Ret stations.

(** [Mtapi._update]. [self._last_update] is assigned first and stays
    assigned when the rebuild raises; stations and routes are replaced
    only at the end. *)
Definition _update (w : Outside) (self : Mtapi) : pyres unit * Mtapi :=
  let self := set_last_update (now w) self in
  let service_alerts := fetch_service_alerts w self in
  let built :=
    collected ← collect_trains w self;
    stations ← finish_stations self service_alerts (fst collected);
    Ret (stations, snd collected) in
  match built with
  | Ret built => (Ret tt, publish built self)
  | Raise e => (Raise e, self)
  end.

(** [Mtapi.__init__], from the catalog as [json.load] returned it. The
    first [_update] assigns [_last_update] before anything reads it, and
    replaces the empty [_routes] by the [defaultdict(set)] it builds. The
    timer of the threaded mode is outside this module. *)
Definition __init__ (stations_file : list (string * gmap string jvalue))
    (expires_seconds max_trains max_minutes : Z) (threaded service_alerts : bool)
    (w : Outside) : pyres Mtapi :=
  let stations :=
    map (fun item => (fst item, new_Station (snd item))) stations_file in
  stops ← _build_stops_index stations;
  let self :=
    mk_Mtapi max_trains max_minutes expires_seconds threaded service_alerts
      stations stops ∅ (now w) in
  match _update w self with
  | (Ret _, self) => Ret self
  | (Raise e, _) => Raise e
  end.

(** ** Python numbers and the comparison of catalog values *)

(** What a catalog value is in arithmetic and in comparisons: an [int],
    with [True] and [False] as 1 and 0, or a [float]. *)
Inductive number : Type :=
| NInt (n : Z)
| NFloat (x : float).

Definition as_number (v : jvalue) : option number :=
  match v with
  | JBool b => Some (NInt (if b then 1 else 0))
  | JInt n => Some (NInt n)
  | JNum x => Some (NFloat x)
  | _ => None
  end.

(** The conversion of an [int] operand of float arithmetic: the nearest
    binary64 number, ties to even, and [OverflowError] beyond the range. *)
Definition float_of_int (n : Z) : pyres float :=
  let x := FloatOps.SF2Prim
             (SpecFloat.binary_normalize FloatOps.prec FloatOps.emax n 0 false) in
  if PrimFloat.is_infinity x then Raise OverflowError else Ret x.

(** [x - v] for a float [x]. *)
Definition float_sub (x : float) (v : jvalue) : pyres float :=
  match as_number v with
  | Some (NFloat y) => Ret (PrimFloat.sub x y)
  | Some (NInt n) => y ← float_of_int n; Ret (PrimFloat.sub x y)
  | None => Raise TypeError
  end.

(** [x ** 2] for a float [x]: the cases that Python settles itself, then
    the platform's [pow], whose infinite result is reported as
    [OverflowError]. *)
Definition float_pow_2 (libm_pow : float -> float -> float) (x : float)
  : pyres float :=
  if PrimFloat.is_nan x then Ret x
  else if PrimFloat.is_infinity x then Ret PrimFloat.infinity
  else if PrimFloat.is_zero x then Ret 0%float
  else
    let iv := PrimFloat.abs x in
    if PrimFloat.eqb iv 1 then Ret 1%float
    else
      let ix := libm_pow iv 2%float in
      if PrimFloat.is_infinity ix then Raise OverflowError else Ret ix.

(** [math.sqrt]: a result that is not a number, of an argument that is
    one, is a [ValueError]. *)
Definition math_sqrt (x : float) : pyres float :=
  let r := PrimFloat.sqrt x in
  if PrimFloat.is_nan r && negb (PrimFloat.is_nan x) then Raise ValueError
  else Ret r.

(** An [int] against a [float], exactly, as Python compares them; [None]
    when the float is not a number. *)
Definition compare_int_float (n : Z) (x : float) : option comparison :=
  match FloatOps.Prim2SF x with
  | SpecFloat.S754_nan => None
  | SpecFloat.S754_infinity negative => Some (if negative then Gt else Lt)
  | SpecFloat.S754_zero _ => Some (n ?= 0)
  | SpecFloat.S754_finite negative m e =>
      let v := if negative then Z.neg m else Z.pos m in
      Some (if 0 <=? e then n ?= v * 2 ^ e else n * 2 ^ (- e) ?= v)
  end.

Definition number_ltb (a b : number) : bool :=
  match a, b with
  | NInt m, NInt n => m <? n
  | NFloat x, NFloat y => PrimFloat.ltb x y
  | NInt m, NFloat y =>
      match compare_int_float m y with Some Lt => true | _ => false end
  | NFloat x, NInt n =>
      match compare_int_float n x with Some Gt => true | _ => false end
  end.

Definition number_eqb (a b : number) : bool :=
  match a, b with
  | NInt m, NInt n => m =? n
  | NFloat x, NFloat y => PrimFloat.eqb x y
  | NInt m, NFloat y | NFloat y, NInt m =>
      match compare_int_float m y with Some Eq => true | _ => false end
  end.

(** [a == b] on catalog values; the order of the entries of a dictionary
    does not count. *)
Fixpoint py_eq (a b : jvalue) {struct a} : bool :=
  match a, b with
  | JNull, JNull => true
  | JStr s, JStr t => String.eqb s t
  | JList l, JList k =>
      (fix items_eq (l k : list jvalue) {struct l} : bool :=
         match l, k with
         | [], [] => true
         | x :: l', y :: k' => py_eq x y && items_eq l' k'
         | _, _ => false
         end) l k
  | JDict d, JDict e =>
      (length d =? length e)%nat
      && (fix entries_eq (d : list (string * jvalue)) {struct d} : bool :=
            match d with
            | [] => true
            | (key, v) :: d' =>
                match dict_get key e with
                | Some v' => py_eq v v'
                | None => false
                end
                && entries_eq d'
            end) d
  | _, _ =>
      match as_number a, as_number b with
      | Some x, Some y => number_eqb x y
      | _, _ => false
      end
  end.

(** [a < b] on catalog values: numbers among themselves, strings among
    themselves, lists by their first items that differ; anything else is
    a [TypeError]. *)
Fixpoint py_lt (a b : jvalue) {struct a} : pyres bool :=
  match a, b with
  | JStr s, JStr t => Ret (String.ltb s t)
  | JList l, JList k =>
      (fix items_lt (l k : list jvalue) {struct l} : pyres bool :=
         match l, k with
         | [], [] => Ret false
         | [], _ :: _ => Ret true
         | _ :: _, [] => Ret false
         | x :: l', y :: k' => if py_eq x y then items_lt l' k' else py_lt x y
         end) l k
  | _, _ =>
      match as_number a, as_number b with
      | Some x, Some y => Ret (number_ltb x y)
      | _, _ => Raise TypeError
      end
  end.

(** ** The queries *)

(** What the outside world answers during one query: the clock read by
    [is_expired], what [threader.restart_if_dead()] returns, the answers
    to a rebuild, should one run, and the [pow] of the C library, which
    [**] on floats calls. *)
Record World : Type := mk_World {
  expiry_clock : Z;
  restart_if_dead : bool;
  rebuild : Outside;
  libm_pow : float -> float -> float
}.

(** [age.total_seconds() > seconds] for an age in microseconds. *)
Definition total_seconds_gt (age seconds : Z) : bool :=
  seconds * 1000000 <? age.

(** [Mtapi.is_expired] *)
Definition is_expired (w : World) (self : Mtapi) : bool :=
  if _THREADED self && restart_if_dead w then false
  else if negb (_EXPIRES_SECONDS self =? 0) then
    let age := expiry_clock w - _last_update self in
    total_seconds_gt age (_EXPIRES_SECONDS self)
  else false.

(** What a query leaves behind: its result, the object after it, and the
    number of calls of [_update] it made. *)
Record Outcome (A : Type) : Type := mk_Outcome {
  result : pyres A;
  after : Mtapi;
  rebuilds : nat
}.

Arguments mk_Outcome {A} result after rebuilds.
Arguments result {A} o.
Arguments after {A} o.
Arguments rebuilds {A} o.

(** [if self.is_expired(): self._update()], the first statement of every
    query. *)
Definition refresh (w : World) (self : Mtapi) : Outcome unit :=
  if is_expired w self then
    let '(raised, self) := _update (rebuild w) self in
    mk_Outcome raised self 1
  else mk_Outcome (Ret tt) self 0.

(** [self._stations[k]] *)
Definition stations_getitem (k : string) (self : Mtapi) : pyres _Station :=
  match dict_get k (_stations self) with
  | Some station => Ret station
  | None => Raise KeyError
  end.

(** [Mtapi.get_by_id] *)
Definition get_by_id (w : World) (ids : list string) (self : Mtapi)
  : Outcome (list (gmap string value)) :=
  let fresh := refresh w self in
  match result fresh with
  | Raise e => mk_Outcome (Raise e) (after fresh) (rebuilds fresh)
  | Ret _ =>
      let self := after fresh in
      mk_Outcome
        (comprehension
           (fun k => station ← stations_getitem k self; Ret (serialize station))
           ids)
        self (rebuilds fresh)
  end.

(** [Mtapi.last_update] *)
Definition Mtapi_last_update (self : Mtapi) : Z := _last_update self.

(** [Mtapi.get_routes] *)
Definition get_routes (self : Mtapi) : gset string := dom (_routes self).

Definition set_routes (routes : gmap string (gset string)) (self : Mtapi)
  : Mtapi :=
  mk_Mtapi (_MAX_TRAINS self) (_MAX_MINUTES self) (_EXPIRES_SECONDS self)
    (_THREADED self) (_GET_SERVICE_ALERTS self) (_stations self)
    (_stops_to_stations self) routes (_last_update self).

(** [self._routes[route]] on the [defaultdict(set)]: a missing key is
    inserted with an empty set. *)
Definition routes_getitem (route : string) (self : Mtapi)
  : gset string * Mtapi :=
  match _routes self !! route with
  | Some stops => (stops, self)
  | None => (∅, set_routes (<[route := ∅]> (_routes self)) self)
  end.

(** [x['name']], the key of [out.sort(key=lambda x: x['name'])]. The
    five derived fields of a serialized station have other keys: what
    stands under [name] is a catalog value. *)
Definition getitem_name (x : gmap string value) : pyres jvalue :=
  match x !! "name"%string with
  | Some (Catalog name) => Ret name
  | Some _ => Raise TypeError
  | None => Raise KeyError
  end.

(** [Mtapi.get_by_route]. The stop ids of the route are visited in the
    order of [elements]; Python leaves the order of a set unspecified. *)
Definition get_by_route (w : World) (route : string) (self : Mtapi)
  : Outcome (list (gmap string value)) :=
  let route := upper route in
  let fresh := refresh w self in
  match result fresh with
  | Raise e => mk_Outcome (Raise e) (after fresh) (rebuilds fresh)
  | Ret _ =>
      let '(stops, self) := routes_getitem route (after fresh) in
      mk_Outcome
        (out ← comprehension
                 (fun k =>
                    match _stops_to_stations self !! k with
                    | None => Raise KeyError
                    | Some station_id =>
                        station ← stations_getitem station_id self;
                        Ret (serialize station)
                    end)
                 (elements stops);
         keyed ← comprehension (fun x => name ← getitem_name x; Ret (name, x))
                   out;
         sorted_out ← list_sort py_lt keyed;
         Ret (map snd sorted_out))
        self (rebuilds fresh)
  end.

(** [p[i]] on a catalog value, for the index 0 or 1. *)
Definition getitem (p : jvalue) (i : nat) : pyres jvalue :=
  match p with
  | JList items =>
      match items !! i with
      | Some v => Ret v
      | None => Raise IndexError
      end
  | JStr s =>
      match String.get i s with
      | Some c => Ret (JStr (String c EmptyString))
      | None => Raise IndexError
      end
  | JDict _ => Raise KeyError
  | _ => Raise TypeError
  end.

(** [distance(p1, p2)] for a catalog value [p1] and a pair of floats
    [p2], in the order in which Python evaluates it. *)
Definition distance (libm_pow : float -> float -> float) (p1 : jvalue)
    (p2 : float * float) : pyres float :=
  x ← getitem p1 0;
  dx ← float_sub (fst p2) x;
  dx2 ← float_pow_2 libm_pow dx;
  y ← getitem p1 1;
  dy ← float_sub (snd p2) y;
  dy2 ← float_pow_2 libm_pow dy;
  math_sqrt (PrimFloat.add dx2 dy2).

(** [Mtapi.get_by_point]; [islice] refuses a negative [limit]. The sort
    is the stable one: distances that are numbers have one sorted order,
    and where a distance is not a number (NaN) the properties below say
    nothing of the order. *)
Definition get_by_point (w : World) (point : float * float) (limit : Z)
    (self : Mtapi) : Outcome (list (gmap string value)) :=
  let fresh := refresh w self in
  match result fresh with
  | Raise e => mk_Outcome (Raise e) (after fresh) (rebuilds fresh)
  | Ret _ =>
      let self := after fresh in
      let sortable_stations := map snd (_stations self) in
      mk_Outcome
        (keyed ← comprehension
                   (fun s =>
                      location ← station_getitem "location" s;
                      d ← distance (libm_pow w) location point;
                      Ret (d, s))
                   sortable_stations;
         let sorted_stations := map snd (stable_sort PrimFloat.ltb keyed) in
         if limit <? 0 then Raise ValueError
         else Ret (take (Z.to_nat limit) (map serialize sorted_stations)))
        self (rebuilds fresh)
  end.

(** ** The vocabulary of the properties *)

(** Two states of a station that differ in their alerts at most. *)
Definition same_trains (a b : _Station) : Prop :=
  json a = json b /\ trains_N a = trains_N b /\ trains_S a = trains_S b
  /\ routes a = routes b /\ last_update a = last_update b.

(** The set of routes of a station is the set of route ids of its trains. *)
Definition routes_match (item : string * _Station) : Prop :=
  routes (snd item) = _get_station_routes (snd item).

(** [station.trains[direction]] for the two directions. *)
Definition trains_of (direction : string) (st : _Station) : list train :=
  if String.eqb direction "N" then trains_N st else trains_S st.

(** The direction of a trip starts with the letter [d]. *)
Definition starts_with (d : string) (s : string) : bool :=
  match first_char s with
  | Ret c => String.eqb c d
  | Raise _ => false
  end.

(** What a stop-time update is to a station, in the words of the
    specification: a train when its time lies between [lo] and [hi], both
    included, and the index of stops gives its stop id to the station;
    nothing otherwise. *)
Definition update_trains (stops_index : gmap string string) (lo hi : Z)
    (station_id route_id : string) (update : TripStop) : list train :=
  if (lo <=? TripStop_time update) && (TripStop_time update <=? hi)
     && bool_decide (stops_index !! TripStop_stop_id update = Some station_id)
  then [mk_train route_id (TripStop_time update)]
  else [].

(** The same for the stop-time updates of a feed entity: those of a valid
    trip of the direction count, under the upper-cased route id. *)
Definition entity_trains (stops_index : gmap string string) (lo hi : Z)
    (station_id direction : string) (trip : FeedEntity) : list train :=
  if trip_is_valid trip && starts_with direction (trip_direction trip)
  then flat_map
         (update_trains stops_index lo hi station_id (upper (trip_route_id trip)))
         (stop_time_update trip)
  else [].

(** The trains that the trip feeds hold for a station and a direction at
    a rebuild: feed by feed in the order of [_FEED_URLS], leaving out the
    feeds that do not load, with the window that starts at the time of the
    rebuild and is [max_minutes] long. *)
Definition contributed (w : Outside) (self : Mtapi)
    (station_id direction : string) : list train :=
  flat_map
    (fun url =>
       match _load_mta_feed w url with
       | Some feed =>
           flat_map
             (entity_trains (_stops_to_stations self) (now w)
                (now w + timedelta_minutes (_MAX_MINUTES self))
                station_id direction)
             (entity feed)
       | None => []
       end)
    _FEED_URLS.






(** The station that owns a stop id of the route index. *)
Definition owner_of (self : Mtapi) (k : string) (station : _Station) : Prop :=
  exists station_id,
    _stops_to_stations self !! k = Some station_id
    /\ dict_get station_id (_stations self) = Some station.

(** The display name of a serialized station, when it has one that is a
    string. *)
Definition display_name (x : gmap string value) : option string :=
  match x !! "name"%string with
  | Some (Catalog (JStr name)) => Some name
  | _ => None
  end.

(** Two serialized stations in ascending order of display name. *)
Definition name_le (a b : gmap string value) : Prop :=
  exists na nb,
    display_name a = Some na /\ display_name b = Some nb
    /\ String.leb na nb = true.

(** The static part of an entry of the stations dictionary. *)
Definition catalog_of (item : string * _Station) : string * gmap string jvalue :=
  (fst item, json (snd item)).

(** The route index that a rebuild publishes: its keys are upper-case,
    and its stop ids are keys of the index of stops. *)
Definition route_index_known (self : Mtapi)
    (routes : gmap string (gset string)) : Prop :=
  forall route stops,
    routes !! route = Some stops ->
    upper route = route
    /\ forall k, k ∈ stops -> is_Some (_stops_to_stations self !! k).

(** Why a station holds an alert: the header text is what
    [_get_alert_text] finds for an entity, it is not empty, and a reference
    of the entity matches the station, by a stop for [stop] and by a route
    for [route]. *)
Definition attaches (station : _Station) (entity : FeedEntity) (a : alert)
  : Prop :=
  _get_alert_text entity "en-html" = Ret (Some (alert_header_text a))
  /\ alert_header_text a <> EmptyString
  /\ exists informed,
       informed ∈ informed_entity entity
       /\ ((alert_type a = "stop"%string
            /\ exists items,
                 json station !! "stops"%string = Some (JDict items)
                 /\ _alert_applies_to_stop informed (map fst items) = true)
           \/ (alert_type a = "route"%string
               /\ route_applies informed (_get_station_routes station) = true)).

(** The invariant of the alerts pass over one station: the header texts
    are distinct, and every alert has its reason among the alerts
    processed. *)
Definition alerts_justified (service_alerts : list FeedEntity)
    (st : _Station) : Prop :=
  NoDup (map alert_header_text (alerts st))
  /\ forall a, a ∈ alerts st ->
       (alert_type a = "stop"%string \/ alert_type a = "route"%string)
       /\ exists entity, entity ∈ service_alerts /\ attaches st entity a.

(** The route index lists a station under a route: one of the stop ids
    that the index has for the route belongs to the station. *)
Definition route_serves (stops_index : gmap string string)
    (route_index : gmap string (gset string)) (route station_id : string)
  : Prop :=
  exists stops k,
    route_index !! route = Some stops /\ k ∈ stops
    /\ stops_index !! k = Some station_id.

(** The object as [__init__] builds it from the catalog of [self], before
    any rebuild: no trains, no routes, no alerts. *)
Definition from_catalog (self : Mtapi) : Mtapi :=
  mk_Mtapi (_MAX_TRAINS self) (_MAX_MINUTES self) (_EXPIRES_SECONDS self)
    (_THREADED self) (_GET_SERVICE_ALERTS self)
    (map (fun item => (fst item, new_Station (json (snd item)))) (_stations self))
    (_stops_to_stations self) ∅ 0.

(** The stop ids of a station: the keys of the [stops] of its catalog
    record. *)
Definition has_stops (st : _Station) (stop_ids : list string) : Prop :=
  exists items,
    json st !! "stops"%string = Some (JDict items) /\ stop_ids = map fst items.

(** The lookups of a query cannot miss: the index of stops names stations
    of the snapshot, and the route index names stop ids of the index of
    stops. *)
Definition consistent (self : Mtapi) : Prop :=
  (forall k station_id,
     _stops_to_stations self !! k = Some station_id ->
     is_Some (dict_get station_id (_stations self)))
  /\ (forall r stops k,
        _routes self !! r = Some stops -> k ∈ stops ->
        is_Some (_stops_to_stations self !! k)).

(** Every station has a display name that is a string. *)
Definition named (self : Mtapi) : Prop :=
  forall id st,
    (id, st) ∈ _stations self ->
    exists name, json st !! "name"%string = Some (JStr name).

(** The objects that a program can hold: built by [__init__], then
    rebuilt and queried any number of times. *)
Inductive reachable : Mtapi -> Prop :=
| reachable_init stations_file expires_seconds max_trains max_minutes threaded
    service_alerts w self :
    __init__ stations_file expires_seconds max_trains max_minutes threaded
      service_alerts w = Ret self ->
    reachable self
| reachable_update w self :
    reachable self -> reachable (snd (_update w self))
| reachable_get_by_point w point limit self :
    reachable self -> reachable (after (get_by_point w point limit self))
| reachable_get_by_route w route self :
    reachable self -> reachable (after (get_by_route w route self))
| reachable_get_by_id w ids self :
    reachable self -> reachable (after (get_by_id w ids self)).

(** The key under which [get_by_point] sorts a station. *)
Definition distance_to (libm_pow : float -> float -> float)
    (point : float * float) (st : _Station) : pyres float :=
  location ← station_getitem "location" st; distance libm_pow location point.

(** No station is at a distance that is not a number: the keys of the sort
    of [get_by_point] can then be compared with each other. *)
Definition distances_are_numbers (libm_pow : float -> float -> float)
    (point : float * float) (stations : list (string * _Station)) : bool :=
  forallb
    (fun item =>
       match distance_to libm_pow point (snd item) with
       | Ret d => negb (PrimFloat.is_nan d)
       | Raise _ => true
       end)
    stations.

(** ** Scenario: two stations, one trip feed, one alerts feed *)

Definition demo_catalog : list (string * gmap string jvalue) :=
  [ ("A"%string,
     <["name"%string := JStr "Alpha"]>
       (<["location"%string := JList [JNum 0; JNum 0]]>
       (<["stops"%string := JDict [("A1"%string, JNull); ("A2"%string, JNull)]]> ∅)));
    ("B"%string,
     <["name"%string := JStr "Beta"]>
       (<["location"%string := JList [JNum 3; JNum 4]]>
       (<["stops"%string := JDict [("B1"%string, JNull)]]> ∅))) ].

(** 14 November 2023, 22:13:20 UTC. *)
Definition demo_now : Z := 1700000000000000.

(** A northbound 7 train calling at both stops of station A, at station B
    45 minutes from now and at a stop the catalog does not know; a
    northbound C train calling at A1 before it. *)
Definition demo_trips : FeedResponse :=
  mk_FeedResponse
    [ mk_FeedEntity true "NORTH" "7"
        [ mk_TripStop (demo_now + timedelta_minutes 5) "A1";
          mk_TripStop (demo_now + timedelta_minutes 45) "B1";
          mk_TripStop (demo_now + timedelta_minutes 7) "A2";
          mk_TripStop (demo_now + timedelta_minutes 1) "ZZ9" ]
        [] [] [];
      mk_FeedEntity true "NORTH" "c"
        [ mk_TripStop (demo_now + timedelta_minutes 2) "A1" ]
        [] [] [] ]
    (demo_now - 3000000).

(** An alert on stop A1N with an [en-html] and an [en] header; an alert on
    route C whose [en] header is followed by a Spanish one. *)
Definition demo_alerts : FeedResponse :=
  mk_FeedResponse
    [ mk_FeedEntity false "" "" []
        [ mk_TimeRange 1699990000 0 ]
        [ mk_EntitySelector (Some "A1N"%string) None ]
        [ mk_Translation "en" "Stairs closed";
          mk_Translation "en-html" "<p>Stairs closed</p>" ];
      mk_FeedEntity false "" "" []
        [ mk_TimeRange 1699990000 1700090000 ]
        [ mk_EntitySelector None (Some "C"%string) ]
        [ mk_Translation "en" "Delays";
          mk_Translation "es" "Retrasos" ] ]
    (demo_now - 1000000).

Definition demo_outside_with (alerts_feed : FeedResponse) : Outside :=
  mk_Outside demo_now
    (fun url =>
       if String.eqb url "https://api-endpoint.mta.info/Dataservice/mtagtfsfeeds/nyct%2Fgtfs"
       then Some demo_trips
       else if String.eqb url _SERVICE_ALERT_URL then Some alerts_feed
       else None).

Definition demo_outside : Outside := demo_outside_with demo_alerts.

(** The object as [__init__] has it before its first [_update]. *)
Definition demo_blank (max_trains : Z) (service_alerts : bool) : Mtapi :=
  mk_Mtapi max_trains 30 60 false service_alerts
    (map (fun item => (fst item, new_Station (snd item))) demo_catalog)
    (<["A1"%string := "A"%string]>
       (<["A2"%string := "A"%string]> (<["B1"%string := "B"%string]> ∅)))
    ∅ demo_now.

(** The object after that [_update]. *)
Definition demo_mtapi (max_trains : Z) (service_alerts : bool) : Mtapi :=
  snd (_update demo_outside (demo_blank max_trains service_alerts)).

(** A station of the published snapshot. *)
Definition demo_station (max_trains : Z) (service_alerts : bool) (id : string)
  : _Station :=
  default (new_Station ∅)
    (dict_get id (_stations (demo_mtapi max_trains service_alerts))).

(** An alert as the third entity of [demo_alerts] would be: it has no
    header at all. *)
Definition demo_untitled_alert : FeedEntity :=
  mk_FeedEntity false "" "" []
    [ mk_TimeRange 1699990000 0 ]
    [ mk_EntitySelector (Some "B1"%string) None ]
    [].

(** A platform whose [pow] squares exactly; the queries raise to no other
    power. *)
Definition demo_pow (x y : float) : float := PrimFloat.mul x x.

(** A world in which the snapshot is one second old. *)
Definition demo_world : World :=
  mk_World (demo_now + 1000000) false demo_outside demo_pow.


(** A station whose catalog record has a field called [routes]. *)
Definition demo_colliding_station : _Station :=
  mk_Station
    (<["name"%string := JStr "Gamma"]> (<["routes"%string := JStr "static"]> ∅))
    [mk_train "7" demo_now] [] {["7"%string]} [] (Some demo_now).

(** A world in which the snapshot has expired and the alerts feed holds
    an alert without any header. *)
Definition demo_world_broken : World :=
  mk_World (demo_now + timedelta_minutes 2) false
    (mk_Outside (demo_now + timedelta_minutes 2)
       (_load_mta_feed
          (demo_outside_with (mk_FeedResponse [demo_untitled_alert] demo_now))))
    demo_pow.

(** An alerts feed in which two alerts have the same header: the first
    is about route 7, the second names stop A1N; a third alert names stop
    B1, which no train of the scenario reaches in time. *)
Definition demo_same_text_alerts : FeedResponse :=
  mk_FeedResponse
    [ mk_FeedEntity false "" "" []
        [ mk_TimeRange 1699990000 0 ]
        [ mk_EntitySelector None (Some "7"%string) ]
        [ mk_Translation "en-html" "Delays" ];
      mk_FeedEntity false "" "" []
        [ mk_TimeRange 1699990000 0 ]
        [ mk_EntitySelector (Some "A1N"%string) None ]
        [ mk_Translation "en-html" "Delays" ];
      mk_FeedEntity false "" "" []
        [ mk_TimeRange 1699990000 0 ]
        [ mk_EntitySelector (Some "B1"%string) None ]
        [ mk_Translation "en-html" "Lift out" ] ]
    (demo_now - 1000000).

(** The object after a rebuild with that alerts feed. *)
Definition demo_mtapi_same_text : Mtapi :=
  snd (_update (demo_outside_with demo_same_text_alerts) (demo_blank 10 true)).

(** A station of that snapshot. *)
Definition demo_station_same_text (id : string) : _Station :=
  default (new_Station ∅) (dict_get id (_stations demo_mtapi_same_text)).

(** A world in which no feed answers. *)
Definition demo_outage : Outside :=
  mk_Outside (demo_now + timedelta_minutes 2) (fun _ => None).



(** * Properties *)

(** Closed equations between large values are checked by evaluating both
    sides, without writing the values out. *)
Ltac by_evaluation :=
  lazymatch goal with
  | |- ?lhs = ?rhs => exact (@eq_refl _ rhs <: lhs = rhs)
  end.


(** ** Loops *)

Lemma bind_Ret {A B : Type} (m : pyres A) (k : A -> pyres B) (b : B) :
  (m ≫= k) = Ret b -> exists a, m = Ret a /\ k a = Ret b.
Proof. destruct m as [a|e]; simpl; [eauto | discriminate]. Qed.

(** A property kept by every iteration that returns is kept by the loop. *)
Lemma for_each_invariant {A S : Type} (P : S -> Prop)
    (body : S -> A -> pyres S) (l : list A) :
  (forall s x s', x ∈ l -> P s -> body s x = Ret s' -> P s') ->
  forall s s', P s -> for_each body l s = Ret s' -> P s'.
Proof.
  induction l as [|x l IH]; intros Hbody s s' Hs Hrun; simpl in Hrun.
  - congruence.
  - apply bind_Ret in Hrun as (s1 & H1 & Hrest).
    apply (IH (fun s0 y s0' Hy => Hbody s0 y s0' (list_elem_of_further _ _ _ Hy))
             s1 s'); [|exact Hrest].
    apply (Hbody s x s1); [left | exact Hs | exact H1].
Qed.

Lemma comprehension_Forall2 {A B : Type} (f : A -> pyres B) (l : list A)
    (out : list B) :
  comprehension f l = Ret out -> Forall2 (fun x y => f x = Ret y) l out.
Proof.
  revert out. induction l as [|x l IH]; intros out H; simpl in H.
  - injection H as <-. constructor.
  - apply bind_Ret in H as (y & Hy & H).
    apply bind_Ret in H as (ys & Hys & H). injection H as <-.
    constructor; [exact Hy | apply IH, Hys].
Qed.

(** ** Sorting and slicing *)

Section SortingFacts.
Context {K A : Type} (ltb : K -> K -> bool).
Hypothesis ltb_asym : forall a b, ltb a b = true -> ltb b a = false.

Lemma insert_sorted_perm (x : K * A) (l : list (K * A)) :
  insert_sorted ltb x l ≡ₚ x :: l.
Proof.
  induction l as [|y l IH]; simpl; [reflexivity|].
  destruct (ltb (fst y) (fst x)); [|reflexivity].
  rewrite IH. apply Permutation_swap.
Qed.

Lemma stable_sort_perm (l : list (K * A)) : stable_sort ltb l ≡ₚ l.
Proof.
  induction l as [|x l IH]; simpl; [reflexivity|].
  rewrite insert_sorted_perm. by rewrite IH.
Qed.

Lemma insert_sorted_HdRel (a x : K * A) (l : list (K * A)) :
  key_le ltb a x -> HdRel (key_le ltb) a l ->
  HdRel (key_le ltb) a (insert_sorted ltb x l).
Proof.
  intros Hax Hal. destruct l as [|y l]; simpl; [by constructor|].
  destruct (ltb (fst y) (fst x)); constructor; [|exact Hax].
  by inversion Hal.
Qed.

Lemma insert_sorted_Sorted (x : K * A) (l : list (K * A)) :
  Sorted (key_le ltb) l -> Sorted (key_le ltb) (insert_sorted ltb x l).
Proof using ltb_asym.
  induction l as [|y l IH]; intros Hl; simpl.
  - repeat constructor.
  - destruct (ltb (fst y) (fst x)) eqn:Hyx.
    + inversion Hl as [|? ? Hsl Hhd]; subst. constructor; [by apply IH|].
      apply insert_sorted_HdRel; [|exact Hhd].
      unfold key_le. by apply ltb_asym.
    + constructor; [exact Hl|]. constructor. exact Hyx.
Qed.

Lemma stable_sort_Sorted (l : list (K * A)) :
  Sorted (key_le ltb) (stable_sort ltb l).
Proof using ltb_asym.
  induction l as [|x l IH]; simpl; [constructor|].
  by apply insert_sorted_Sorted.
Qed.

Lemma sorted_perm (key : A -> K) (l : list A) : sorted ltb key l ≡ₚ l.
Proof.
  unfold sorted. rewrite stable_sort_perm, map_map. simpl.
  by rewrite map_id.
Qed.

(** The keys a decorated list carries are those of its elements. *)
Lemma stable_sort_keys (key : A -> K) (l : list A) :
  Forall (fun p => fst p = key (snd p))
    (stable_sort ltb (map (fun x => (key x, x)) l)).
Proof.
  rewrite stable_sort_perm. apply Forall_map, Forall_true. reflexivity.
Qed.

Lemma Sorted_undecorate (key : A -> K) (l : list (K * A)) :
  Forall (fun p => fst p = key (snd p)) l ->
  Sorted (key_le ltb) l ->
  Sorted (fun a b => ltb (key b) (key a) = false) (map snd l).
Proof.
  induction l as [|p l IH]; intros Hk Hs; simpl; [constructor|].
  inversion Hk as [|? ? Hp Hl]; subst. inversion Hs as [|? ? Hsl Hhd]; subst.
  constructor; [by apply IH|].
  destruct l as [|q l]; simpl; constructor.
  inversion Hhd as [|? ? Hpq]; subst. inversion Hl as [|? ? Hq _]; subst.
  unfold key_le in Hpq. by rewrite Hp, Hq in Hpq.
Qed.

Lemma sorted_Sorted (key : A -> K) (l : list A) :
  Sorted (fun a b => ltb (key b) (key a) = false) (sorted ltb key l).
Proof using ltb_asym.
  unfold sorted. apply Sorted_undecorate.
  - apply stable_sort_keys.
  - apply stable_sort_Sorted.
Qed.
End SortingFacts.

(** Where no comparison raises, [list_sort] is the stable sort. *)
Lemma insert_by_total {K K' A : Type} (lt : K -> K -> pyres bool)
    (ltb : K' -> K' -> bool) (f : K' -> K) (x : K' * A) (l : list (K' * A)) :
  (forall a b, lt (f a) (f b) = Ret (ltb a b)) ->
  insert_by lt (f (fst x), snd x) (map (fun p => (f (fst p), snd p)) l)
  = Ret (map (fun p => (f (fst p), snd p)) (insert_sorted ltb x l)).
Proof.
  intros Hlt. induction l as [|y l IH]; simpl; [reflexivity|].
  rewrite Hlt. simpl. destruct (ltb (fst y) (fst x)); [|reflexivity].
  by rewrite IH.
Qed.

Lemma list_sort_total {K K' A : Type} (lt : K -> K -> pyres bool)
    (ltb : K' -> K' -> bool) (f : K' -> K) (l : list (K' * A)) :
  (forall a b, lt (f a) (f b) = Ret (ltb a b)) ->
  list_sort lt (map (fun p => (f (fst p), snd p)) l)
  = Ret (map (fun p => (f (fst p), snd p)) (stable_sort ltb l)).
Proof.
  intros Hlt. induction l as [|x l IH]; simpl; [reflexivity|].
  rewrite IH. simpl. by apply insert_by_total.
Qed.

Example sorted_is_stable :
  sorted Z.ltb train_time
    [mk_train "A" 5; mk_train "B" 2; mk_train "C" 5; mk_train "D" 1]
  = [mk_train "D" 1; mk_train "B" 2; mk_train "A" 5; mk_train "C" 5].
Proof. reflexivity. Qed.

Example slice_to_examples :
  slice_to 2 [1; 2; 3] = [1; 2] /\ slice_to 5 [1; 2; 3] = [1; 2; 3]
  /\ slice_to 0 [1; 2; 3] = [] /\ slice_to (-1) [1; 2; 3] = [1; 2].
Proof. by repeat split. Qed.

Lemma Sorted_take {A : Type} (R : A -> A -> Prop) (n : nat) (l : list A) :
  Sorted R l -> Sorted R (take n l).
Proof.
  revert n. induction l as [|x l IH]; intros [|n] Hs; simpl; try constructor.
  - inversion Hs; subst. by apply IH.
  - inversion Hs as [|? ? _ Hhd]; subst.
    destruct l as [|y l]; destruct n; simpl; constructor.
    by inversion Hhd.
Qed.

Lemma Sorted_weaken {A : Type} (R R' : A -> A -> Prop) (l : list A) :
  (forall a b, R a b -> R' a b) -> Sorted R l -> Sorted R' l.
Proof.
  intros HR. induction 1 as [|x l _ IH Hhd]; constructor; [exact IH|].
  destruct Hhd; constructor. by apply HR.
Qed.

(** A slice [l[:stop]] is a prefix of [l]. *)
Lemma slice_to_take {A : Type} (stop : Z) (l : list A) :
  exists n, slice_to stop l = take n l.
Proof. unfold slice_to. destruct (stop <? 0); eauto. Qed.

Lemma slice_to_length {A : Type} (stop : Z) (l : list A) :
  0 <= stop -> Z.of_nat (length (slice_to stop l)) <= stop.
Proof.
  intros Hstop. unfold slice_to.
  destruct (Z.ltb_spec stop 0) as [?|_]; [lia|].
  rewrite length_take. lia.
Qed.

(** Nothing is cut off a list that a slice leaves shorter than [stop]. *)
Lemma slice_to_short {A : Type} (stop : Z) (l : list A) :
  Z.of_nat (length (slice_to stop l)) < stop -> slice_to stop l = l.
Proof.
  unfold slice_to. destruct (Z.ltb_spec stop 0) as [Hneg|Hpos].
  - rewrite length_take. lia.
  - rewrite length_take. intros H. apply take_ge. lia.
Qed.

Lemma slice_to_subseteq {A : Type} (stop : Z) (l : list A) :
  slice_to stop l ⊆ l.
Proof.
  destruct (slice_to_take stop l) as [n ->].
  intros x Hx. apply elem_of_take in Hx as (i & Hx & _).
  by eapply list_elem_of_lookup_2.
Qed.

(** ** Dictionaries *)

Lemma dict_get_elem_of {V : Type} (k : string) (v : V) (d : list (string * V)) :
  dict_get k d = Some v -> (k, v) ∈ d.
Proof.
  induction d as [|[k' v'] d IH]; simpl; [discriminate|].
  destruct (String.eqb_spec k k') as [->|_].
  - intros [= ->]. left.
  - intros H. right. by apply IH.
Qed.

Lemma dict_replace_Forall {V : Type} (P : string * V -> Prop) (k : string)
    (v : V) (d : list (string * V)) :
  Forall P d -> P (k, v) -> Forall P (dict_replace k v d).
Proof.
  intros Hd Hv. induction Hd as [|[k' v'] d Hx Hd IH]; simpl; [constructor|].
  destruct (String.eqb_spec k k') as [->|_]; constructor; auto.
Qed.

Lemma Forall2_elem_of_r {A B : Type} (R : A -> B -> Prop) (l : list A)
    (k : list B) (y : B) :
  Forall2 R l k -> y ∈ k -> exists x, x ∈ l /\ R x y.
Proof.
  induction 1 as [|x y' l k Hxy _ IH]; intros Hy.
  - by apply elem_of_nil in Hy.
  - apply elem_of_cons in Hy as [->|Hy].
    + exists x. split; [left | exact Hxy].
    + destruct (IH Hy) as (x' & Hx' & HR). exists x'. split; [by right | exact HR].
Qed.

(** ** Stations *)

Lemma same_trains_refl (a : _Station) : same_trains a a.
Proof. by repeat split. Qed.

Lemma same_trains_trans (a b c : _Station) :
  same_trains a b -> same_trains b c -> same_trains a c.
Proof.
  intros (?&?&?&?&?) (?&?&?&?&?). repeat split; congruence.
Qed.

Lemma add_alert_same_trains (ty text : string) (st : _Station) :
  same_trains st (add_alert ty text st).
Proof.
  unfold add_alert. destruct (existsb _ _); [apply same_trains_refl|].
  by repeat split.
Qed.

Lemma informed_loop_same_trains (l : list EntitySelector) (r : gset string)
    (text : string) (st st' : _Station) :
  informed_loop l r text st = Ret st' -> same_trains st st'.
Proof.
  induction l as [|i l IH]; simpl; intros H.
  - injection H as <-. apply same_trains_refl.
  - apply bind_Ret in H as (stops & _ & H).
    apply bind_Ret in H as (keys & _ & H).
    destruct (_alert_applies_to_stop i keys).
    { injection H as <-. apply add_alert_same_trains. }
    destruct (route_applies i r).
    { injection H as <-. apply add_alert_same_trains. }
    by apply IH.
Qed.

Lemma alert_body_same_trains (r : gset string) (st st' : _Station)
    (alert_entity : FeedEntity) :
  alert_body r st alert_entity = Ret st' -> same_trains st st'.
Proof.
  unfold alert_body. intros H. apply bind_Ret in H as (text & _ & H).
  destruct text as [[|c text]|]; try (injection H as <-; apply same_trains_refl).
  by apply informed_loop_same_trains in H.
Qed.

Lemma station_alerts_body_same_trains (service_alerts : list FeedEntity)
    (item item' : string * _Station) :
  station_alerts_body service_alerts item = Ret item' ->
  fst item' = fst item /\ same_trains (snd item) (snd item').
Proof.
  unfold station_alerts_body. intros H. apply bind_Ret in H as (st & H & Hret).
  injection Hret as <-. split; [reflexivity|]. simpl.
  revert H. apply for_each_invariant; [|apply same_trains_refl].
  intros s x s' _ Hs Hx. eapply same_trains_trans; [exact Hs|].
  by apply alert_body_same_trains in Hx.
Qed.

(** What the second half of a rebuild does to the trains of a station:
    it sorts and truncates them, and nothing else. *)
Lemma finish_stations_trains (self : Mtapi) (service_alerts : list FeedEntity)
    (stations out : list (string * _Station)) :
  finish_stations self service_alerts stations = Ret out ->
  forall id st, (id, st) ∈ out ->
  exists st0, (id, st0) ∈ stations
              /\ same_trains (sort_trains (_MAX_TRAINS self) st0) st.
Proof.
  unfold finish_stations. intros H id st Hin.
  destruct (_GET_SERVICE_ALERTS self && negb (is_empty service_alerts)).
  - apply comprehension_Forall2 in H.
    destruct (Forall2_elem_of_r _ _ _ _ H Hin) as ([id0 st1] & Hin1 & Hb).
    apply station_alerts_body_same_trains in Hb as [Hid Hst]. simpl in *.
    subst id0. apply list_elem_of_In, in_map_iff in Hin1 as ([id0 st0] & Heq & Hin0).
    simpl in Heq. injection Heq as -> <-.
    exists st0. split; [by apply list_elem_of_In | exact Hst].
  - injection H as <-.
    apply list_elem_of_In, in_map_iff in Hin as ([id0 st0] & Heq & Hin0).
    simpl in Heq. injection Heq as -> <-.
    exists st0. split; [by apply list_elem_of_In | apply same_trains_refl].
Qed.

(** [_update] returns when both halves of the rebuild do, and publishes
    what they built. *)
Lemma _update_Ret (w : Outside) (self self' : Mtapi) :
  _update w self = (Ret tt, self') ->
  let self0 := set_last_update (now w) self in
  exists collected stations,
    collect_trains w self0 = Ret collected
    /\ finish_stations self0 (fetch_service_alerts w self0) (fst collected)
       = Ret stations
    /\ self' = publish (stations, snd collected) self0.
Proof.
  intros H self0. unfold _update in H. fold self0 in H.
  destruct (collect_trains w self0) as [collected|e] eqn:Hc; simpl in H;
    [|discriminate].
  destruct (finish_stations self0 (fetch_service_alerts w self0) (fst collected))
    as [stations|e] eqn:Hf; simpl in H; [|discriminate].
  injection H as <-. by exists collected, stations.
Qed.

(** ** The routes of a station while trains are collected *)

Lemma clear_train_data_routes_match (id : string) (st : _Station) :
  routes_match (id, clear_train_data st).
Proof. unfold routes_match, _get_station_routes. simpl. set_solver. Qed.

Lemma add_train_routes_match (id route_id direction : string) (t ft : Z)
    (st st' : _Station) :
  routes_match (id, st) ->
  add_train route_id direction t ft st = Ret st' ->
  routes_match (id, st').
Proof.
  unfold routes_match, add_train, _get_station_routes. simpl. intros Hst H.
  destruct (String.eqb direction "N");
    [|destruct (String.eqb direction "S"); [|discriminate]];
    injection H as <-; simpl; rewrite Hst, !map_app, !list_to_set_app_L;
    simpl; apply set_eq; intros r; set_unfold; tauto.
Qed.

Lemma stop_time_update_body_routes_match (self : Mtapi) (max_time : Z)
    (route_id direction : string) (ft : Z) (acc acc' : working)
    (update : TripStop) :
  Forall routes_match (fst acc) ->
  stop_time_update_body self max_time route_id direction ft acc update = Ret acc' ->
  Forall routes_match (fst acc').
Proof.
  unfold stop_time_update_body. intros Hacc H.
  destruct (_ || _); [by injection H as <-|].
  destruct (_stops_to_stations self !! _) as [station_id|]; [|by injection H as <-].
  destruct (dict_get station_id (fst acc)) as [station|] eqn:Hget; [|discriminate].
  apply bind_Ret in H as (station' & Hadd & H). injection H as <-. simpl.
  apply dict_replace_Forall; [exact Hacc|].
  eapply add_train_routes_match; [|exact Hadd].
  apply dict_get_elem_of in Hget.
  rewrite Forall_forall in Hacc. by apply Hacc.
Qed.

Lemma collect_trains_routes_match (w : Outside) (self : Mtapi)
    (collected : working) :
  collect_trains w self = Ret collected -> Forall routes_match (fst collected).
Proof.
  unfold collect_trains.
  apply (for_each_invariant (fun acc : working => Forall routes_match (fst acc))).
  - intros acc url acc' _ Hacc. unfold feed_body.
    destruct (_load_mta_feed w url) as [mta_data|]; [|by intros [= <-]].
    revert Hacc.
    apply (for_each_invariant (fun acc : working => Forall routes_match (fst acc))).
    intros acc1 entity1 acc1' _ Hacc1. unfold entity_body.
    destruct (negb (trip_is_valid entity1)); [by intros [= <-]|].
    intros H. apply bind_Ret in H as (direction & _ & H). revert Hacc1 H.
    apply (for_each_invariant (fun acc : working => Forall routes_match (fst acc))).
    intros acc2 update acc2' _. apply stop_time_update_body_routes_match.
  - simpl. apply Forall_map, Forall_forall. intros [id st] _.
    apply clear_train_data_routes_match.
Qed.

Lemma route_set_perm (l l' : list train) :
  l ≡ₚ l' ->
  list_to_set (map train_route l) =@{gset string} list_to_set (map train_route l').
Proof. intros H. apply list_to_set_perm_L. by apply Permutation_map. Qed.

Lemma route_set_subseteq (l l' : list train) :
  l ⊆ l' ->
  list_to_set (map train_route l) ⊆@{gset string} list_to_set (map train_route l').
Proof.
  intros H r. rewrite !elem_of_list_to_set.
  intros Hr. apply list_elem_of_In, in_map_iff in Hr as (t & <- & Ht).
  apply list_elem_of_In, in_map. apply list_elem_of_In, H, list_elem_of_In, Ht.
Qed.

Lemma sort_trains_routes_subseteq (max_trains : Z) (st : _Station) :
  _get_station_routes (sort_trains max_trains st) ⊆ _get_station_routes st.
Proof.
  unfold _get_station_routes, sort_trains. simpl.
  rewrite !map_app, !list_to_set_app_L.
  pose proof (route_set_subseteq _ _
    (slice_to_subseteq max_trains (sorted Z.ltb train_time (trains_N st)))) as HN.
  pose proof (route_set_subseteq _ _
    (slice_to_subseteq max_trains (sorted Z.ltb train_time (trains_S st)))) as HS.
  rewrite (route_set_perm _ _ (sorted_perm Z.ltb train_time (trains_N st))) in HN.
  rewrite (route_set_perm _ _ (sorted_perm Z.ltb train_time (trains_S st))) in HS.
  by apply union_mono.
Qed.

(** When neither list fills its quota, nothing was cut off and the trains
    still show every route. *)
Lemma sort_trains_routes_short (max_trains : Z) (st : _Station) :
  Z.of_nat (length (trains_N (sort_trains max_trains st))) < max_trains ->
  Z.of_nat (length (trains_S (sort_trains max_trains st))) < max_trains ->
  _get_station_routes (sort_trains max_trains st) = _get_station_routes st.
Proof.
  unfold _get_station_routes, sort_trains. simpl. intros HN HS.
  rewrite (slice_to_short _ _ HN), (slice_to_short _ _ HS).
  rewrite !map_app, !list_to_set_app_L.
  by rewrite (route_set_perm _ _ (sorted_perm Z.ltb train_time (trains_N st))),
    (route_set_perm _ _ (sorted_perm Z.ltb train_time (trains_S st))).
Qed.

Lemma demo_update_returns (max_trains : Z) (service_alerts : bool) :
  fst (_update demo_outside (demo_blank max_trains service_alerts)) = Ret tt ->
  _update demo_outside (demo_blank max_trains service_alerts)
  = (Ret tt, demo_mtapi max_trains service_alerts).
Proof.
  intros H. unfold demo_mtapi. rewrite <- H. apply surjective_pairing.
Qed.

Lemma demo_station_elem_of (max_trains : Z) (service_alerts : bool) (id : string) :
  is_Some (dict_get id (_stations (demo_mtapi max_trains service_alerts))) ->
  (id, demo_station max_trains service_alerts id)
  ∈ _stations (demo_mtapi max_trains service_alerts).
Proof.
  intros [st Hst]. apply dict_get_elem_of. unfold demo_station. by rewrite Hst.
Qed.

Example demo_init_ok :
  __init__ demo_catalog 60 1 30 false false demo_outside
  = Ret (demo_mtapi 1 false).
Proof. by_evaluation. Qed.

Example demo_station_A_trains :
  trains_N (demo_station 10 false "A")
  = [ mk_train "C" (demo_now + timedelta_minutes 2);
      mk_train "7" (demo_now + timedelta_minutes 5);
      mk_train "7" (demo_now + timedelta_minutes 7) ]
  /\ trains_S (demo_station 10 false "A") = []
  /\ trains_N (demo_station 10 false "B") = [].
Proof. vm_compute. auto. Qed.

(** ** The catalog through a rebuild *)

Lemma dict_replace_catalog (k : string) (st st' : _Station)
    (d : list (string * _Station)) :
  dict_get k d = Some st -> json st' = json st ->
  map catalog_of (dict_replace k st' d) = map catalog_of d.
Proof.
  intros Hget Hjson. induction d as [|[k' v] d IH]; simpl in *; [done|].
  destruct (String.eqb k k'); simpl.
  - injection Hget as ->. unfold catalog_of. simpl. by rewrite Hjson.
  - by rewrite IH.
Qed.

Lemma add_train_json (route_id direction : string) (t ft : Z)
    (st st' : _Station) :
  add_train route_id direction t ft st = Ret st' -> json st' = json st.
Proof.
  unfold add_train. intros H.
  destruct (String.eqb direction "N");
    [|destruct (String.eqb direction "S"); [|discriminate]];
    by injection H as <-.
Qed.

Lemma collect_trains_catalog (w : Outside) (self : Mtapi) (collected : working) :
  collect_trains w self = Ret collected ->
  map catalog_of (fst collected) = map catalog_of (_stations self).
Proof.
  unfold collect_trains.
  apply (for_each_invariant
           (fun acc : working =>
              map catalog_of (fst acc) = map catalog_of (_stations self))).
  - intros acc url acc' _ Hacc. unfold feed_body.
    destruct (_load_mta_feed w url) as [mta_data|]; [|by intros [= <-]].
    revert Hacc.
    apply (for_each_invariant
             (fun acc : working =>
                map catalog_of (fst acc) = map catalog_of (_stations self))).
    intros acc1 entity1 acc1' _ Hacc1. unfold entity_body.
    destruct (negb (trip_is_valid entity1)); [by intros [= <-]|].
    intros H. apply bind_Ret in H as (direction & _ & H). revert Hacc1 H.
    apply (for_each_invariant
             (fun acc : working =>
                map catalog_of (fst acc) = map catalog_of (_stations self))).
    intros acc2 update acc2' _ Hacc2. unfold stop_time_update_body.
    destruct (_ || _); [by intros [= <-]|].
    destruct (_stops_to_stations self !! _) as [sid|]; [|by intros [= <-]].
    destruct (dict_get sid (fst acc2)) as [st|] eqn:Hget; [|discriminate].
    intros H. apply bind_Ret in H as (st' & Hadd & H). injection H as <-. simpl.
    rewrite (dict_replace_catalog sid st st'); [done | done |].
    by apply add_train_json in Hadd.
  - simpl. rewrite map_map. by apply map_ext.
Qed.

Lemma finish_stations_catalog (self : Mtapi) (service_alerts : list FeedEntity)
    (stations out : list (string * _Station)) :
  finish_stations self service_alerts stations = Ret out ->
  map catalog_of out = map catalog_of stations.
Proof.
  unfold finish_stations.
  destruct (_GET_SERVICE_ALERTS self && negb (is_empty service_alerts)).
  - intros H. apply comprehension_Forall2 in H. revert out H.
    induction stations as [|[id st] stations IH]; intros out H; simpl in H.
    + by inversion H.
    + inversion H as [|? item' ? out' Hb Hrest]; subst. simpl.
      rewrite (IH _ Hrest).
      apply station_alerts_body_same_trains in Hb as [Hid (Hjson & _)].
      simpl in Hid, Hjson. unfold catalog_of. simpl. by rewrite Hid, <- Hjson.
  - intros [= <-]. rewrite map_map. by apply map_ext.
Qed.

(** A rebuild that returns publishes the stations of before, in their
    order, each with its catalog record. *)
Lemma _update_catalog (w : Outside) (self self' : Mtapi) :
  _update w self = (Ret tt, self') ->
  map catalog_of (_stations self') = map catalog_of (_stations self)
  /\ _stops_to_stations self' = _stops_to_stations self.
Proof.
  intros Hup. apply _update_Ret in Hup as (collected & stations & Hc & Hf & ->).
  simpl. split; [|reflexivity].
  rewrite (finish_stations_catalog _ _ _ _ Hf).
  by rewrite (collect_trains_catalog _ _ _ Hc).
Qed.

(** ** C1, C2: routes and train lists after a rebuild *)

(** C1, as stated, fails. With [max_trains = 1] station A keeps the C
    train only, and its [routes] still hold the route 7 whose trains were
    cut off. *)
Lemma C1_routes_exceed_trains :
  _update demo_outside (demo_blank 1 false) = (Ret tt, demo_mtapi 1 false)
  /\ ("A"%string, demo_station 1 false "A") ∈ _stations (demo_mtapi 1 false)
  /\ trains_N (demo_station 1 false "A")
     = [mk_train "C" (demo_now + timedelta_minutes 2)]
  /\ trains_S (demo_station 1 false "A") = []
  /\ "7"%string ∈ routes (demo_station 1 false "A")
  /\ routes (demo_station 1 false "A")
     <> _get_station_routes (demo_station 1 false "A").
Proof.
  split; [apply demo_update_returns; vm_compute; reflexivity|].
  split; [apply demo_station_elem_of; compute_done|].
  split; [vm_compute; reflexivity|].
  split; [vm_compute; reflexivity|].
  assert (H7 : "7"%string ∈ routes (demo_station 1 false "A")) by compute_done.
  split; [exact H7|].
  intros Heq. rewrite Heq in H7. revert H7. compute_done.
Qed.

(** C1, amended. After a rebuild every route id of a station's train lists
    is in its [routes]; the two sets are equal when neither list fills its
    quota of [max_trains]; and [routes] is exactly the set of route ids of
    the trains collected for the station before its lists were sorted and
    truncated. *)
Theorem C1_routes_cover_trains (w : Outside) (self self' : Mtapi) (id : string)
    (st : _Station) :
  _update w self = (Ret tt, self') ->
  (id, st) ∈ _stations self' ->
  _get_station_routes st ⊆ routes st
  /\ (Z.of_nat (length (trains_N st)) < _MAX_TRAINS self ->
      Z.of_nat (length (trains_S st)) < _MAX_TRAINS self ->
      routes st = _get_station_routes st)
  /\ exists collected st0,
       collect_trains w (set_last_update (now w) self) = Ret collected
       /\ (id, st0) ∈ fst collected
       /\ routes st = _get_station_routes st0
       /\ trains_N st
          = slice_to (_MAX_TRAINS self) (sorted Z.ltb train_time (trains_N st0))
       /\ trains_S st
          = slice_to (_MAX_TRAINS self) (sorted Z.ltb train_time (trains_S st0)).
Proof.
  intros Hup Hin.
  apply _update_Ret in Hup as (collected & stations & Hc & Hf & ->).
  simpl in Hin.
  destruct (finish_stations_trains _ _ _ _ Hf id st Hin) as (st0 & Hin0 & Hsame).
  destruct Hsame as (_ & HN & HS & HR & _). simpl in HN, HS, HR.
  pose proof (collect_trains_routes_match _ _ _ Hc) as Hall.
  rewrite Forall_forall in Hall. specialize (Hall _ Hin0).
  unfold routes_match in Hall. simpl in Hall.
  assert (Hst : _get_station_routes st
                = _get_station_routes (sort_trains (_MAX_TRAINS self) st0)).
  { unfold _get_station_routes. simpl. by rewrite <- HN, <- HS. }
  split; [|split].
  - rewrite Hst, <- HR, Hall. apply sort_trains_routes_subseteq.
  - intros HlN HlS. rewrite Hst, <- HR, Hall. symmetry.
    apply sort_trains_routes_short; simpl; by rewrite ?HN, ?HS.
  - exists collected, st0. repeat split; try done. by rewrite <- HR.
Qed.

Lemma C1_routes_cover_trains_witness :
  _update demo_outside (demo_blank 1 false) = (Ret tt, demo_mtapi 1 false)
  /\ ("A"%string, demo_station 1 false "A") ∈ _stations (demo_mtapi 1 false)
  /\ _get_station_routes (demo_station 1 false "A")
     ⊆ routes (demo_station 1 false "A").
Proof.
  assert (H1 : _update demo_outside (demo_blank 1 false)
               = (Ret tt, demo_mtapi 1 false))
    by (apply demo_update_returns; vm_compute; reflexivity).
  assert (H2 : ("A"%string, demo_station 1 false "A")
               ∈ _stations (demo_mtapi 1 false))
    by (apply demo_station_elem_of; compute_done).
  split; [exact H1|]. split; [exact H2|].
  exact (proj1 (C1_routes_cover_trains _ _ _ _ _ H1 H2)).
Defined.

(** C2. After a rebuild with a [max_trains] that is not negative, each of
    the two train lists of every station has at most [max_trains] elements
    and is in non-decreasing order of predicted time. *)
Theorem C2_trains_bounded_and_ordered (w : Outside) (self self' : Mtapi)
    (id : string) (st : _Station) :
  0 <= _MAX_TRAINS self ->
  _update w self = (Ret tt, self') ->
  (id, st) ∈ _stations self' ->
  Z.of_nat (length (trains_N st)) <= _MAX_TRAINS self
  /\ Z.of_nat (length (trains_S st)) <= _MAX_TRAINS self
  /\ Sorted (fun a b => train_time a <= train_time b) (trains_N st)
  /\ Sorted (fun a b => train_time a <= train_time b) (trains_S st).
Proof.
  intros Hmax Hup Hin.
  apply _update_Ret in Hup as (collected & stations & Hc & Hf & ->).
  simpl in Hin.
  destruct (finish_stations_trains _ _ _ _ Hf id st Hin) as (st0 & _ & Hsame).
  destruct Hsame as (_ & HN & HS & _). simpl in HN, HS. rewrite <- HN, <- HS.
  assert (Hsorted : forall l,
    Sorted (fun a b => train_time a <= train_time b)
      (slice_to (_MAX_TRAINS self) (sorted Z.ltb train_time l))).
  { intros l. destruct (slice_to_take (_MAX_TRAINS self)
                          (sorted Z.ltb train_time l)) as [n ->].
    apply Sorted_take.
    eapply Sorted_weaken; [|apply sorted_Sorted; intros a b; lia].
    intros a b. simpl. lia. }
  repeat split; auto using slice_to_length.
Qed.

Lemma C2_trains_bounded_and_ordered_witness :
  Z.of_nat (length (trains_N (demo_station 2 false "A"))) <= 2
  /\ Z.of_nat (length (trains_S (demo_station 2 false "A"))) <= 2
  /\ Sorted (fun a b => train_time a <= train_time b)
       (trains_N (demo_station 2 false "A"))
  /\ Sorted (fun a b => train_time a <= train_time b)
       (trains_S (demo_station 2 false "A")).
Proof.
  apply (C2_trains_bounded_and_ordered demo_outside (demo_blank 2 false)
           (demo_mtapi 2 false) "A").
  - simpl. lia.
  - apply demo_update_returns. vm_compute. reflexivity.
  - apply demo_station_elem_of. compute_done.
Defined.

(** ** C3: the header text of an alert *)

(** A translation in the requested language is returned, the first one
    when there are several. *)
Lemma _get_alert_text_loop_requested (pre post : list Translation)
    (t : Translation) (language : string) (english_text : option (option string)) :
  (forall t', t' ∈ pre -> translation_language t' <> language) ->
  translation_language t = language ->
  _get_alert_text_loop (pre ++ t :: post) language english_text
  = Ret (Some (translation_text t)).
Proof.
  revert english_text. induction pre as [|t' pre IH]; intros e Hpre Ht; simpl.
  - by rewrite (proj2 (String.eqb_eq _ _) Ht).
  - assert (Hne : translation_language t' <> language) by (apply Hpre; left).
    rewrite (proj2 (String.eqb_neq _ _) Hne).
    destruct (String.eqb (translation_language t') "en");
      apply IH; try done; intros t'' Hin; apply Hpre; by right.
Qed.

(** Without a translation in the requested language the result is decided
    by the last translation alone: its text when it is the ['en'] one,
    [None] otherwise. *)
Lemma _get_alert_text_loop_fallback (pre : list Translation) (t : Translation)
    (language : string) (english_text : option (option string)) :
  (forall t', t' ∈ pre ++ [t] -> translation_language t' <> language) ->
  _get_alert_text_loop (pre ++ [t]) language english_text
  = Ret (if String.eqb (translation_language t) "en"
         then Some (translation_text t) else None).
Proof.
  revert english_text. induction pre as [|t' pre IH]; intros e Hall; simpl.
  - assert (Hne : translation_language t <> language) by (apply Hall; left).
    rewrite (proj2 (String.eqb_neq _ _) Hne).
    by destruct (String.eqb (translation_language t) "en").
  - assert (Hne : translation_language t' <> language) by (apply Hall; left).
    rewrite (proj2 (String.eqb_neq _ _) Hne).
    destruct (String.eqb (translation_language t') "en");
      apply IH; intros t'' Hin; apply Hall; by right.
Qed.

(** An alert whose only header is the ['en'] one, as the elevator alerts
    have it, does get that text. *)
Example _get_alert_text_english_only :
  _get_alert_text
    (mk_FeedEntity false "" "" [] [] [] [mk_Translation "en" "Elevator out"])
    "en-html"
  = Ret (Some "Elevator out"%string).
Proof. reflexivity. Qed.

(** C3, at the inputs where the code departs from it. The ['en'] header
    of an alert is lost when another translation follows it, and the alert
    is then attached to no station; an alert without any translation raises
    [UnboundLocalError], and the rebuild with it. *)
Theorem C3_english_fallback_lost :
  _get_alert_text
    (mk_FeedEntity false "" "" [] [] []
       [mk_Translation "en" "Delays"; mk_Translation "es" "Retrasos"])
    "en-html"
  = Ret None
  /\ _get_station_routes (demo_station 10 true "A") = {["C"%string; "7"%string]}
  /\ alerts (demo_station 10 true "A") = [mk_alert "stop" "<p>Stairs closed</p>"]
  /\ _get_alert_text demo_untitled_alert "en-html" = Raise UnboundLocalError
  /\ fst (_update
            (demo_outside_with (mk_FeedResponse [demo_untitled_alert] demo_now))
            (demo_blank 10 true))
     = Raise UnboundLocalError.
Proof.
  split; [reflexivity|]. split; [by vm_compute|].
  split; [vm_compute; reflexivity|]. split; [reflexivity|].
  vm_compute. reflexivity.
Qed.

(** ** C4, C9: identifiers that the current data do not have *)

Lemma comprehension_Raise {A B : Type} (f : A -> pyres B) (l : list A)
    (x : A) (e : exn) :
  x ∈ l -> (forall y, y ∈ l -> f y = Raise e \/ exists b, f y = Ret b) ->
  f x = Raise e -> comprehension f l = Raise e.
Proof.
  induction l as [|y l IH]; intros Hx Hall Hfx; [by apply elem_of_nil in Hx|].
  simpl. apply elem_of_cons in Hx as [<-|Hx]; [by rewrite Hfx|].
  destruct (Hall y) as [Hy|[b Hy]]; [left | by rewrite Hy |]; rewrite Hy; simpl.
  rewrite IH; [done | done | | done]. intros z Hz. apply Hall. by right.
Qed.

(** [get_by_id] raises [KeyError] as soon as one of the ids is not a
    station of the current snapshot. *)
Lemma get_by_id_absent (w : World) (ids : list string) (k : string)
    (self : Mtapi) :
  result (refresh w self) = Ret tt ->
  k ∈ ids ->
  dict_get k (_stations (after (refresh w self))) = None ->
  result (get_by_id w ids self) = Raise KeyError.
Proof.
  intros Hfresh Hk Hget. unfold get_by_id. rewrite Hfresh. simpl.
  apply (comprehension_Raise _ _ k); [exact Hk | |].
  - intros y _. unfold stations_getitem.
    destruct (dict_get y _); simpl; eauto.
  - unfold stations_getitem. by rewrite Hget.
Qed.

(** C4, at the input where the code departs from it. No station has the
    id Q and no route has it: [get_by_id] raises [KeyError], and
    [get_by_route] returns an empty list as if the route served no
    station. *)
Theorem C4_get_by_route_absent_is_silent :
  dict_get "Q" (_stations (demo_mtapi 10 false)) = None
  /\ _routes (demo_mtapi 10 false) !! "Q"%string = None
  /\ result (get_by_id demo_world ["Q"%string] (demo_mtapi 10 false))
     = Raise KeyError
  /\ result (get_by_route demo_world "Q" (demo_mtapi 10 false)) = Ret [].
Proof. repeat split; vm_compute; reflexivity. Qed.

(** What a rebuild publishes does not depend on the route index it
    replaces. *)
Lemma _update_ignores_routes (w : Outside) (self : Mtapi)
    (routes' : gmap string (gset string)) :
  fst (_update w (set_routes routes' self)) = fst (_update w self)
  /\ (fst (_update w self) = Ret tt ->
      snd (_update w (set_routes routes' self)) = snd (_update w self)).
Proof.
  assert (Hcollect :
    collect_trains w (set_last_update (now w) (set_routes routes' self))
    = collect_trains w (set_last_update (now w) self)) by reflexivity.
  assert (Hfinish : forall stations,
    finish_stations (set_last_update (now w) (set_routes routes' self))
      (fetch_service_alerts w (set_last_update (now w) (set_routes routes' self)))
      stations
    = finish_stations (set_last_update (now w) self)
        (fetch_service_alerts w (set_last_update (now w) self)) stations)
    by reflexivity.
  unfold _update. rewrite Hcollect.
  destruct (collect_trains w _) as [collected|e]; simpl; [|by split].
  rewrite Hfinish.
  destruct (finish_stations _ _ _) as [stations|e]; simpl; by split.
Qed.

(** C9. When the upper-cased route id is not a key of the route index,
    [get_by_route] inserts it with an empty set of stops and returns an
    empty list; nothing else of the object changes; [get_routes] lists the
    id from then on; and the next rebuild that returns publishes what it
    would have published without the insertion. *)
Theorem C9_get_by_route_inserts_absent_route (w : World) (route : string)
    (self : Mtapi) :
  result (refresh w self) = Ret tt ->
  _routes (after (refresh w self)) !! (upper route) = None ->
  let self1 := after (refresh w self) in
  let self2 := after (get_by_route w route self) in
  result (get_by_route w route self) = Ret []
  /\ _routes self2 = <[upper route := ∅]> (_routes self1)
  /\ _stations self2 = _stations self1
  /\ _stops_to_stations self2 = _stops_to_stations self1
  /\ _last_update self2 = _last_update self1
  /\ (upper route ∉ get_routes self1)
  /\ upper route ∈ get_routes self2
  /\ forall (w' : Outside) (self3 : Mtapi),
       _update w' self2 = (Ret tt, self3) -> _update w' self1 = (Ret tt, self3).
Proof.
  intros Hfresh Habsent self1 self2.
  assert (Hafter : self2 = snd (routes_getitem (upper route) self1)
                   /\ result (get_by_route w route self) = Ret []).
  { unfold self2, get_by_route. rewrite Hfresh. fold self1.
    unfold routes_getitem. fold self1 in Habsent. rewrite Habsent. simpl.
    split; [reflexivity|]. by rewrite elements_empty. }
  destruct Hafter as [Hself2 Hres]. rewrite Hself2.
  unfold routes_getitem. fold self1 in Habsent. rewrite Habsent. simpl.
  repeat split; try done.
  - unfold get_routes. by apply not_elem_of_dom.
  - unfold get_routes. simpl. rewrite dom_insert_L. set_solver.
  - intros w' self3 Hup.
    destruct (_update_ignores_routes w' self1
                (<[upper route := ∅]> (_routes self1))) as [Hfst Hsnd].
    rewrite (surjective_pairing (_update w' self1)).
    rewrite Hup in Hfst, Hsnd. simpl in Hfst, Hsnd.
    rewrite <- Hfst, <- Hsnd; [reflexivity | by symmetry].
Qed.

Lemma C9_get_by_route_inserts_absent_route_witness :
  result (get_by_route demo_world "q" (demo_mtapi 10 false)) = Ret []
  /\ ("Q"%string ∉ get_routes (demo_mtapi 10 false))
  /\ "Q"%string
     ∈ get_routes (after (get_by_route demo_world "q" (demo_mtapi 10 false))).
Proof.
  assert (H1 : result (refresh demo_world (demo_mtapi 10 false)) = Ret tt)
    by (vm_compute; reflexivity).
  assert (H2 : _routes (after (refresh demo_world (demo_mtapi 10 false)))
                 !! (upper "q") = None) by (vm_compute; reflexivity).
  pose proof (C9_get_by_route_inserts_absent_route demo_world "q"
                (demo_mtapi 10 false) H1 H2) as H.
  cbv zeta in H. destruct H as (Hres & _ & _ & _ & _ & Hout & Hin & _).
  split; [exact Hres|]. split; [exact Hout | exact Hin].
Defined.

(** ** C10: serialization *)

Lemma serialize_lookup (self : _Station) (k : string) :
  serialize self !! k
  = match json self !! k with
    | Some v => Some (Catalog v)
    | None => derived_fields self !! k
    end.
Proof.
  unfold serialize. rewrite lookup_union, lookup_fmap.
  destruct (json self !! k); simpl; by destruct (derived_fields self !! k).
Qed.

Lemma derived_fields_lookup (self : _Station) :
  derived_fields self !! "service_alerts"%string = Some (Alerts (alerts self))
  /\ derived_fields self !! "N"%string = Some (Trains (trains_N self))
  /\ derived_fields self !! "S"%string = Some (Trains (trains_S self))
  /\ derived_fields self !! "routes"%string = Some (Routes (routes self))
  /\ derived_fields self !! "last_update"%string
     = Some (LastUpdate (last_update self)).
Proof. unfold derived_fields. repeat split; by simplify_map_eq. Qed.

(** C10. A serialized station has every field of the catalog record with
    the value of the catalog, also under a key that a derived field has;
    under any other key it has what the dictionary of the five derived
    fields has there. *)
Theorem C10_serialize_catalog_over_derived (self : _Station) (k : string) :
  serialize self !! k
  = match json self !! k with
    | Some v => Some (Catalog v)
    | None => derived_fields self !! k
    end
  /\ dom (derived_fields self)
     = {[ "service_alerts"; "N"; "S"; "routes"; "last_update" ]}%string
  /\ derived_fields self !! "service_alerts"%string = Some (Alerts (alerts self))
  /\ derived_fields self !! "N"%string = Some (Trains (trains_N self))
  /\ derived_fields self !! "S"%string = Some (Trains (trains_S self))
  /\ derived_fields self !! "routes"%string = Some (Routes (routes self))
  /\ derived_fields self !! "last_update"%string
     = Some (LastUpdate (last_update self)).
Proof.
  split; [|split; [|apply derived_fields_lookup]].
  - apply serialize_lookup.
  - unfold derived_fields. rewrite !dom_insert_L, dom_empty_L.
    apply set_eq. intros x. set_unfold. tauto.
Qed.

Example serialize_collision :
  serialize demo_colliding_station !! "routes"%string
  = Some (Catalog (JStr "static"))
  /\ serialize demo_colliding_station !! "name"%string
     = Some (Catalog (JStr "Gamma"))
  /\ serialize demo_colliding_station !! "N"%string
     = Some (Trains [mk_train "7" demo_now]).
Proof. repeat split; vm_compute; reflexivity. Qed.

(** ** C8: when a query rebuilds *)




Lemma query_after (w : World) (self : Mtapi) (point : float * float)
    (limit : Z) (ids : list string) :
  after (get_by_point w point limit self) = after (refresh w self)
  /\ after (get_by_id w ids self) = after (refresh w self).
Proof.
  unfold get_by_point, get_by_id. by destruct (result (refresh w self)).
Qed.



(** ** The references of an alert *)




Example rstrip_NS_examples :
  rstrip_NS "A1N" = "A1"%string /\ rstrip_NS "A1" = "A1"%string
  /\ rstrip_NS "S09S" = "S09"%string /\ rstrip_NS "A1NS" = "A1"%string.
Proof. by repeat split. Qed.




(** The alert that names stop A1N reaches station A, whose stops include
    A1, with type [stop]; station B gets no alert. *)
Example demo_alert_attaches_by_stop :
  alerts (demo_station 10 true "A") = [mk_alert "stop" "<p>Stairs closed</p>"]
  /\ alerts (demo_station 10 true "B") = [].
Proof. split; vm_compute; reflexivity. Qed.

(** ** C5: the stations of a route *)

Lemma upper_ascii_idemp (c : ascii) : upper_ascii (upper_ascii c) = upper_ascii c.
Proof. by destruct c as [[] [] [] [] [] [] [] []]. Qed.

Lemma upper_idemp (s : string) : upper (upper s) = upper s.
Proof.
  induction s as [|c s IH]; simpl; [reflexivity|].
  by rewrite upper_ascii_idemp, IH.
Qed.

Lemma String_ltb_asym (a b : string) :
  String.ltb a b = true -> String.ltb b a = false.
Proof.
  unfold String.ltb. rewrite (String.compare_antisym a b).
  by destruct (String.compare b a).
Qed.

Lemma String_ltb_leb (a b : string) :
  String.ltb b a = false <-> String.leb a b = true.
Proof.
  unfold String.ltb, String.leb. rewrite (String.compare_antisym a b).
  by destruct (String.compare b a).
Qed.

Lemma owners_comprehension (self : Mtapi) (l : list string) :
  (forall k, k ∈ l ->
     exists station name,
       owner_of self k station
       /\ json station !! "name"%string = Some (JStr name)) ->
  exists owners,
    Forall2 (owner_of self) l owners
    /\ Forall (fun station =>
                 exists name, json station !! "name"%string = Some (JStr name))
         owners
    /\ comprehension
         (fun k =>
            match _stops_to_stations self !! k with
            | None => Raise KeyError
            | Some station_id =>
                station ← stations_getitem station_id self;
                Ret (serialize station)
            end) l
       = Ret (map serialize owners).
Proof.
  induction l as [|k l IH]; intros Hall.
  - exists []. by repeat split.
  - destruct (Hall k) as (station & name & Hown & Hname); [left|].
    destruct IH as (owners & HF2 & HF & Hrun).
    { intros k' Hk'. apply Hall. by right. }
    exists (station :: owners). split; [by constructor|].
    split; [constructor; eauto|].
    destruct Hown as (station_id & Hidx & Hget).
    assert (Hs : stations_getitem station_id self = Ret station)
      by (unfold stations_getitem; by rewrite Hget).
    cbn [comprehension map]. rewrite Hidx, Hs. cbn [mbind pyres_bind].
    by rewrite Hrun.
Qed.

Lemma display_name_getitem_name (x : gmap string value) (name : string) :
  display_name x = Some name <-> getitem_name x = Ret (JStr name).
Proof.
  unfold display_name, getitem_name.
  destruct (x !! "name"%string) as [[[| | | | | |]| | | |]|];
    split; intros H; try discriminate; by injection H as ->.
Qed.

(** The keys of stations whose display names are strings, and their sort:
    strings are compared as strings, and no comparison raises. *)
Lemma names_comprehension (out : list (gmap string value)) :
  Forall (fun x => exists name, display_name x = Some name) out ->
  exists keyed,
    comprehension (fun x => name ← getitem_name x; Ret (name, x)) out
    = Ret (map (fun p => (JStr (fst p), snd p)) keyed)
    /\ list_sort py_lt (map (fun p => (JStr (fst p), snd p)) keyed)
       = Ret (map (fun p => (JStr (fst p), snd p)) (stable_sort String.ltb keyed))
    /\ map snd keyed = out
    /\ Forall (fun p => display_name (snd p) = Some (fst p)) keyed.
Proof.
  intros Hout.
  assert (exists keyed,
    comprehension (fun x => name ← getitem_name x; Ret (name, x)) out
    = Ret (map (fun p => (JStr (fst p), snd p)) keyed)
    /\ map snd keyed = out
    /\ Forall (fun p => display_name (snd p) = Some (fst p)) keyed)
    as (keyed & Hrun & Hsnd & Hkeys).
  { induction Hout as [|x out [name Hx] _ (keyed & Hrun & Hsnd & Hkeys)].
    - exists []. by repeat split.
    - exists ((name, x) :: keyed). simpl.
      rewrite (proj1 (display_name_getitem_name x name) Hx). simpl.
      rewrite Hrun. simpl.
      repeat split; [by rewrite Hsnd | by constructor]. }
  exists keyed. split; [exact Hrun|]. split; [|by split].
  by apply (list_sort_total py_lt String.ltb JStr).
Qed.

Lemma map_snd_keys {K K' A : Type} (f : K' -> K) (l : list (K' * A)) :
  map snd (map (fun p => (f (fst p), snd p)) l) = map snd l.
Proof. rewrite map_map. by apply map_ext. Qed.

Lemma Sorted_names (keyed : list (string * gmap string value)) :
  Forall (fun p => display_name (snd p) = Some (fst p)) keyed ->
  Sorted (key_le String.ltb) keyed -> Sorted name_le (map snd keyed).
Proof.
  induction keyed as [|p keyed IH]; intros Hk Hs; simpl; [constructor|].
  inversion Hk as [|? ? Hp Hrest]; subst. inversion Hs as [|? ? Hs' Hhd]; subst.
  constructor; [by apply IH|].
  destruct keyed as [|q keyed]; simpl; constructor.
  inversion Hhd as [|? ? Hpq]; subst. inversion Hrest as [|? ? Hq _]; subst.
  exists (fst p), (fst q). repeat split; [done | done |].
  by apply String_ltb_leb.
Qed.

Lemma stop_time_update_body_route_index (self : Mtapi) (max_time : Z)
    (route_id direction : string) (ft : Z) (acc acc' : working)
    (update : TripStop) :
  upper route_id = route_id ->
  route_index_known self (snd acc) ->
  stop_time_update_body self max_time route_id direction ft acc update = Ret acc' ->
  route_index_known self (snd acc').
Proof.
  unfold stop_time_update_body. intros Hup Hacc H.
  destruct (_ || _); [by injection H as <-|].
  destruct (_stops_to_stations self !! TripStop_stop_id update)
    as [station_id|] eqn:Hidx; [|by injection H as <-].
  destruct (dict_get station_id (fst acc)) as [station|]; [|discriminate].
  apply bind_Ret in H as (station' & _ & H). injection H as <-. simpl.
  intros route stops. unfold routes_add.
  destruct (decide (route_id = route)) as [<-|Hne].
  - rewrite lookup_insert_eq. intros [= <-]. split; [exact Hup|].
    intros k Hk. apply elem_of_union in Hk as [Hk|Hk].
    + destruct (snd acc !! route_id) as [old|] eqn:Hold; simpl in Hk.
      * by apply (Hacc route_id old).
      * by apply elem_of_empty in Hk.
    + apply elem_of_singleton in Hk as ->. by rewrite Hidx.
  - rewrite lookup_insert_ne by done. apply Hacc.
Qed.

Lemma collect_trains_route_index (w : Outside) (self : Mtapi)
    (collected : working) :
  collect_trains w self = Ret collected ->
  route_index_known self (snd collected).
Proof.
  unfold collect_trains.
  apply (for_each_invariant
           (fun acc : working => route_index_known self (snd acc))).
  - intros acc url acc' _ Hacc. unfold feed_body.
    destruct (_load_mta_feed w url) as [mta_data|]; [|by intros [= <-]].
    revert Hacc.
    apply (for_each_invariant
             (fun acc : working => route_index_known self (snd acc))).
    intros acc1 entity1 acc1' _ Hacc1. unfold entity_body.
    destruct (negb (trip_is_valid entity1)); [by intros [= <-]|].
    intros H. apply bind_Ret in H as (direction & _ & H). revert Hacc1 H.
    apply (for_each_invariant
             (fun acc : working => route_index_known self (snd acc))).
    intros acc2 update acc2' _. apply stop_time_update_body_route_index.
    apply upper_idemp.
  - intros route stops Hroute. simpl in Hroute. by rewrite lookup_empty in Hroute.
Qed.

Lemma _update_route_index (w : Outside) (self self' : Mtapi) :
  _update w self = (Ret tt, self') -> route_index_known self' (_routes self').
Proof.
  intros Hup. apply _update_Ret in Hup as (collected & stations & Hc & _ & ->).
  apply collect_trains_route_index in Hc. exact Hc.
Qed.

(** C5, as stated, fails. Route 7 calls at the two stops A1 and A2 of
    station A, and the station is in the result once for each. *)
Lemma C5_station_listed_twice :
  _routes (demo_mtapi 10 false) !! "7"%string = Some {["A1"%string; "A2"%string]}
  /\ _stops_to_stations (demo_mtapi 10 false) !! "A1"%string = Some "A"%string
  /\ _stops_to_stations (demo_mtapi 10 false) !! "A2"%string = Some "A"%string
  /\ result (get_by_route demo_world "7" (demo_mtapi 10 false))
     = Ret [ serialize (demo_station 10 false "A");
             serialize (demo_station 10 false "A") ].
Proof.
  split; [vm_compute; reflexivity|]. split; [vm_compute; reflexivity|].
  split; [vm_compute; reflexivity|]. by_evaluation.
Qed.

(** C5, amended. For a route id whose upper-cased form is a key of the
    route index, with stop ids that the index of stops maps to stations
    with a display name: [get_by_route] returns, for each stop id of the
    route, the serialized station that owns it (a station once for each of
    its stop ids that the route has), in ascending order of display name;
    it leaves the object as the refresh left it; and the answer is the same
    for the upper-cased route id. *)
Theorem C5_get_by_route_per_stop (w : World) (route : string) (self : Mtapi)
    (stops : gset string) :
  result (refresh w self) = Ret tt ->
  _routes (after (refresh w self)) !! (upper route) = Some stops ->
  (forall k, k ∈ stops ->
     exists station name,
       owner_of (after (refresh w self)) k station
       /\ json station !! "name"%string = Some (JStr name)) ->
  exists owners out,
    Forall2 (owner_of (after (refresh w self))) (elements stops) owners
    /\ result (get_by_route w route self) = Ret out
    /\ out ≡ₚ map serialize owners
    /\ Sorted name_le out
    /\ after (get_by_route w route self) = after (refresh w self)
    /\ get_by_route w (upper route) self = get_by_route w route self.
Proof.
  intros Hfresh Hroute Hstops.
  destruct (owners_comprehension (after (refresh w self)) (elements stops))
    as (owners & HF2 & Hnames & Hrun).
  { intros k Hk. apply Hstops. by apply elem_of_elements. }
  destruct (names_comprehension (map serialize owners))
    as (keyed & Hk & Hsort & Hsnd & Hkeys).
  { apply Forall_map. eapply Forall_impl; [exact Hnames|].
    intros station [name Hname]. exists name. unfold display_name.
    by rewrite serialize_lookup, Hname. }
  exists owners, (map snd (stable_sort String.ltb keyed)).
  assert (Hres : get_by_route w route self
                 = mk_Outcome (Ret (map snd (stable_sort String.ltb keyed)))
                     (after (refresh w self)) (rebuilds (refresh w self))).
  { unfold get_by_route. rewrite Hfresh. unfold routes_getitem.
    rewrite Hroute. cbv iota beta. rewrite Hrun. cbn [mbind pyres_bind].
    rewrite Hk. cbn [mbind pyres_bind]. rewrite Hsort. cbn [mbind pyres_bind].
    by rewrite map_snd_keys. }
  split; [exact HF2|]. split; [by rewrite Hres|].
  split; [by rewrite stable_sort_perm, Hsnd|].
  split.
  { apply Sorted_names.
    - eapply Permutation_Forall; [symmetry; apply stable_sort_perm | exact Hkeys].
    - apply stable_sort_Sorted. apply String_ltb_asym. }
  split; [by rewrite Hres|].
  unfold get_by_route. by rewrite upper_idemp.
Qed.

Lemma C5_get_by_route_per_stop_witness :
  exists owners out,
    Forall2 (owner_of (after (refresh demo_world (demo_mtapi 10 false))))
      (elements ({["A1"%string; "A2"%string]} : gset string)) owners
    /\ result (get_by_route demo_world "7" (demo_mtapi 10 false)) = Ret out
    /\ out ≡ₚ map serialize owners
    /\ Sorted name_le out
    /\ after (get_by_route demo_world "7" (demo_mtapi 10 false))
       = after (refresh demo_world (demo_mtapi 10 false))
    /\ get_by_route demo_world (upper "7") (demo_mtapi 10 false)
       = get_by_route demo_world "7" (demo_mtapi 10 false).
Proof.
  apply (C5_get_by_route_per_stop demo_world "7" (demo_mtapi 10 false)
           {["A1"%string; "A2"%string]}).
  - vm_compute. reflexivity.
  - vm_compute. reflexivity.
  - intros k Hk. exists (demo_station 10 false "A"), "Alpha"%string.
    split; [|vm_compute; reflexivity].
    exists "A"%string. split; [|vm_compute; reflexivity].
    apply elem_of_union in Hk as [Hk|Hk]; apply elem_of_singleton in Hk as ->;
      vm_compute; reflexivity.
Defined.

(** The route id is resolved whatever its case. *)
Example get_by_route_lower_case :
  result (get_by_route demo_world "c" (demo_mtapi 10 false))
  = Ret [serialize (demo_station 10 false "A")]
  /\ get_by_route demo_world "c" (demo_mtapi 10 false)
     = get_by_route demo_world "C" (demo_mtapi 10 false).
Proof. split; by_evaluation. Qed.

(** ** Nearest stations *)

(** From the origin, station A (at distance 0) comes before station B (at
    distance 5). *)
Example get_by_point_nearest_first :
  result (get_by_point demo_world (0%float, 0%float) 1 (demo_mtapi 10 false))
  = Ret [serialize (demo_station 10 false "A")]
  /\ result (get_by_point demo_world (3%float, 3%float) 5 (demo_mtapi 10 false))
     = Ret [ serialize (demo_station 10 false "B");
             serialize (demo_station 10 false "A") ]
  /\ result (get_by_point demo_world (0%float, 0%float) (-1)
               (demo_mtapi 10 false))
     = Raise ValueError.
Proof. split; [by_evaluation|]. split; by_evaluation. Qed.

(** Coordinates may be [int]s or booleans, which Python computes with; a
    square beyond the range of floats is an [OverflowError], raised before
    the second coordinate is read; a location that is too short, or no
    list, raises when it is indexed, and a coordinate that is no number
    when it is subtracted. *)
Example distance_examples :
  distance demo_pow (JList [JInt 3; JBool true]) (0%float, 1%float)
  = Ret 3%float
  /\ distance (fun _ _ => PrimFloat.infinity) (JList [JNum 0; JNull])
       (3%float, 4%float)
     = Raise OverflowError
  /\ distance demo_pow (JList [JNum 0]) (3%float, 4%float) = Raise IndexError
  /\ distance demo_pow (JList [JStr "a"; JNum 0]) (3%float, 4%float)
     = Raise TypeError
  /\ distance demo_pow (JStr "") (3%float, 4%float) = Raise IndexError
  /\ distance demo_pow (JDict []) (3%float, 4%float) = Raise KeyError
  /\ distance demo_pow JNull (3%float, 4%float) = Raise TypeError
  /\ distance demo_pow (JList [JInt (2 ^ 1024); JNum 0]) (3%float, 4%float)
     = Raise OverflowError.
Proof. repeat split; vm_compute; reflexivity. Qed.

(** Names that are numbers are sorted as numbers, an [int] against a
    [float] exactly; one name alone is compared with nothing; names that
    cannot be compared raise as soon as there are two. *)
Example list_sort_examples :
  list_sort py_lt
    [ (JInt 2, "b"%string); (JNum 1.5, "a"%string); (JBool true, "c"%string) ]
  = Ret [ (JBool true, "c"%string); (JNum 1.5, "a"%string);
          (JInt 2, "b"%string) ]
  /\ list_sort py_lt [ (JInt 9007199254740993, "b"%string);
                       (JNum 9007199254740992, "a"%string) ]
     = Ret [ (JNum 9007199254740992, "a"%string);
             (JInt 9007199254740993, "b"%string) ]
  /\ list_sort py_lt [ (JNull, "a"%string) ] = Ret [ (JNull, "a"%string) ]
  /\ list_sort py_lt [ (JNull, "a"%string); (JNull, "b"%string) ]
     = Raise TypeError
  /\ list_sort py_lt [ (JStr "x", "a"%string); (JInt 1, "b"%string) ]
     = Raise TypeError
  /\ list_sort py_lt [ (JList [JInt 1; JStr "b"], "a"%string);
                       (JList [JNum 1; JStr "a"], "b"%string) ]
     = Ret [ (JList [JNum 1; JStr "a"], "b"%string);
             (JList [JInt 1; JStr "b"], "a"%string) ].
Proof. repeat split; vm_compute; reflexivity. Qed.

(** What [get_by_route] sorts are serialized stations, whose value under
    [name] is that of the catalog record. *)
Lemma getitem_name_serialize (st : _Station) :
  getitem_name (serialize st)
  = match json st !! "name"%string with
    | Some name => Ret name
    | None => Raise KeyError
    end.
Proof.
  unfold getitem_name. rewrite serialize_lookup.
  destruct (json st !! "name"%string); [reflexivity|].
  unfold derived_fields. by rewrite !lookup_insert_ne, lookup_empty by done.
Qed.

(** * Further properties of the rebuild and of the queries *)

(** ** Dictionaries of stations *)

Lemma dict_get_is_Some {V : Type} (k : string) (d : list (string * V)) :
  is_Some (dict_get k d) <-> k ∈ map fst d.
Proof.
  induction d as [|[k' v] d IH]; simpl.
  - split; [by intros [? ?] | by intros ?%elem_of_nil].
  - destruct (String.eqb_spec k k') as [->|Hne].
    + split; [intros _; left | eauto].
    + rewrite IH, elem_of_cons. split; [by right | by intros [?|?]].
Qed.

Lemma dict_get_map_values {V W : Type} (f : V -> W) (k : string)
    (d : list (string * V)) :
  dict_get k (map (fun item => (fst item, f (snd item))) d) = f <$> dict_get k d.
Proof.
  induction d as [|[k' v] d IH]; simpl; [reflexivity|].
  by destruct (String.eqb k k').
Qed.

Lemma dict_get_replace {V : Type} (k k' : string) (v old : V)
    (d : list (string * V)) :
  dict_get k d = Some old ->
  dict_get k' (dict_replace k v d)
  = if String.eqb k' k then Some v else dict_get k' d.
Proof.
  induction d as [|[k0 v0] d IH]; simpl; [discriminate|].
  destruct (String.eqb_spec k k0) as [->|Hne]; simpl.
  - intros _. by destruct (String.eqb k' k0).
  - intros Hget. destruct (String.eqb_spec k' k0) as [->|Hne'].
    + by rewrite (proj2 (String.eqb_neq k0 k)).
    + by apply IH.
Qed.

(** Two dictionaries with the same keys in the same order, whose values
    are related entry by entry. *)
Lemma dict_get_Forall2 {V W : Type} (P : V -> W -> Prop) (k : string)
    (d : list (string * V)) (d' : list (string * W)) :
  Forall2 (fun x y => fst y = fst x /\ P (snd x) (snd y)) d d' ->
  match dict_get k d, dict_get k d' with
  | Some v, Some v' => P v v'
  | None, None => True
  | _, _ => False
  end.
Proof.
  induction 1 as [|[k0 v0] [k1 v1] d d' [Hk HP] _ IH]; simpl; [done|].
  simpl in Hk, HP. subst k1. by destruct (String.eqb k k0).
Qed.

(** ** Invariants of the collection of trains *)

(** An invariant of the working state that holds of the cleared stations
    with an empty route index, and that every train added keeps, holds
    when the trains are collected. A train is added for an upper-case
    route id, a time in the window and a stop id of the index, to the
    station that the index names. *)
Lemma collect_trains_invariant (w : Outside) (self : Mtapi)
    (I : working -> Prop) :
  I (map (fun item => (fst item, clear_train_data (snd item))) (_stations self),
     ∅) ->
  (forall acc station_id station station' route_id direction t ft stop_id,
     I acc ->
     upper route_id = route_id ->
     _last_update self <= t
       <= _last_update self + timedelta_minutes (_MAX_MINUTES self) ->
     _stops_to_stations self !! stop_id = Some station_id ->
     dict_get station_id (fst acc) = Some station ->
     add_train route_id direction t ft station = Ret station' ->
     I (dict_replace station_id station' (fst acc),
        routes_add route_id stop_id (snd acc))) ->
  forall collected, collect_trains w self = Ret collected -> I collected.
Proof.
  intros Hstart Hstep collected. unfold collect_trains.
  apply (for_each_invariant I); [|exact Hstart].
  intros acc url acc' _ Hacc. unfold feed_body.
  destruct (_load_mta_feed w url) as [mta_data|]; [|by intros [= <-]].
  revert Hacc. apply (for_each_invariant I).
  intros acc1 entity1 acc1' _ Hacc1. unfold entity_body.
  destruct (negb (trip_is_valid entity1)); [by intros [= <-]|].
  intros H. apply bind_Ret in H as (direction & _ & H). revert Hacc1 H.
  apply (for_each_invariant I).
  intros acc2 update acc2' _ Hacc2. unfold stop_time_update_body.
  destruct (Z.ltb_spec (TripStop_time update) (_last_update self)) as [?|Hlo];
    [by intros [= <-]|].
  destruct (Z.ltb_spec
              (_last_update self + timedelta_minutes (_MAX_MINUTES self))
              (TripStop_time update)) as [?|Hhi]; [by intros [= <-]|].
  cbn [orb].
  destruct (_stops_to_stations self !! TripStop_stop_id update)
    as [station_id|] eqn:Hidx; [|by intros [= <-]].
  destruct (dict_get station_id (fst acc2)) as [station|] eqn:Hget;
    [|discriminate].
  intros H. apply bind_Ret in H as (station' & Hadd & H). injection H as <-.
  eapply Hstep; eauto using upper_idemp.
Qed.

(** The same for a property of each station alone. *)
Lemma collect_trains_stations (w : Outside) (self : Mtapi)
    (P : _Station -> Prop) :
  (forall st, P (clear_train_data st)) ->
  (forall station station' route_id direction t ft,
     P station ->
     upper route_id = route_id ->
     _last_update self <= t
       <= _last_update self + timedelta_minutes (_MAX_MINUTES self) ->
     add_train route_id direction t ft station = Ret station' ->
     P station') ->
  forall collected,
    collect_trains w self = Ret collected ->
    Forall (fun item => P (snd item)) (fst collected).
Proof.
  intros Hclear Hadd.
  apply (collect_trains_invariant w self
           (fun acc => Forall (fun item => P (snd item)) (fst acc))).
  - simpl. apply Forall_map, Forall_forall. intros item _. apply Hclear.
  - intros acc sid station station' r d t ft stop Hacc Hup Ht _ Hget Hrun.
    simpl. apply dict_replace_Forall; [exact Hacc|]. simpl.
    apply (Hadd station station' r d t ft); try done.
    apply dict_get_elem_of in Hget. rewrite Forall_forall in Hacc.
    by apply (Hacc _ Hget).
Qed.

(** ** The alerts of a station *)

Lemma finish_stations_each (self : Mtapi) (service_alerts : list FeedEntity)
    (stations out : list (string * _Station)) :
  finish_stations self service_alerts stations = Ret out ->
  Forall2
    (fun x y =>
       fst y = fst x
       /\ for_each
            (alert_body
               (_get_station_routes (sort_trains (_MAX_TRAINS self) (snd x))))
            (if _GET_SERVICE_ALERTS self then service_alerts else [])
            (sort_trains (_MAX_TRAINS self) (snd x))
          = Ret (snd y))
    stations out.
Proof.
  unfold finish_stations.
  destruct (_GET_SERVICE_ALERTS self) eqn:Hget; simpl.
  - destruct service_alerts as [|entity0 rest]; cbn [is_empty negb].
    + intros [= <-]. induction stations as [|x l IH]; simpl; by constructor.
    + set (alerts := entity0 :: rest). clearbody alerts. intros H.
      apply comprehension_Forall2 in H. revert out H.
      induction stations as [|x l IH]; intros out H; simpl in H.
      { inversion H. constructor. }
      inversion H as [|? y ? out' Hy Hrest]; subst.
      constructor; [|by apply IH].
      unfold station_alerts_body in Hy. simpl in Hy.
      apply bind_Ret in Hy as (st & Hst & Hy). injection Hy as <-. by split.
  - intros [= <-]. induction stations as [|x l IH]; simpl; by constructor.
Qed.

Lemma Forall2_elem_of_l {A B : Type} (R : A -> B -> Prop) (l : list A)
    (k : list B) (x : A) :
  Forall2 R l k -> x ∈ l -> exists y, y ∈ k /\ R x y.
Proof.
  induction 1 as [|x' y l k Hxy _ IH]; intros Hx.
  - by apply elem_of_nil in Hx.
  - apply elem_of_cons in Hx as [->|Hx].
    + exists y. split; [left | exact Hxy].
    + destruct (IH Hx) as (y' & Hy' & HR). exists y'. split; [by right | exact HR].
Qed.

(** What the loop over the references of an alert does to a station:
    nothing, or one call of [add_alert] that a reference justifies. *)
Lemma informed_loop_outcome (l : list EntitySelector) (r : gset string)
    (text : string) (st st' : _Station) :
  informed_loop l r text st = Ret st' ->
  st' = st
  \/ exists informed ty,
       informed ∈ l /\ st' = add_alert ty text st
       /\ ((ty = "stop"%string
            /\ exists items,
                 json st !! "stops"%string = Some (JDict items)
                 /\ _alert_applies_to_stop informed (map fst items) = true)
           \/ (ty = "route"%string /\ route_applies informed r = true)).
Proof.
  induction l as [|i l IH]; simpl; intros H; [left; by injection H|].
  apply bind_Ret in H as (stops & Hstops & H).
  apply bind_Ret in H as (keys0 & Hkeys & H).
  unfold station_getitem in Hstops.
  destruct (json st !! "stops"%string) as [v|] eqn:Hjson; [|discriminate].
  injection Hstops as ->. destruct stops as [| | | | | |items]; try discriminate.
  injection Hkeys as <-.
  destruct (_alert_applies_to_stop i (map fst items)) eqn:Hstop.
  { injection H as <-. right. exists i, "stop"%string.
    split; [left|]. split; [done|]. left. split; [done|]. by exists items. }
  destruct (route_applies i r) eqn:Hroute.
  { injection H as <-. right. exists i, "route"%string.
    split; [left|]. split; [done|]. by right. }
  destruct (IH H) as [->|(informed & ty & Hin & -> & Hwhy)]; [by left|].
  right. exists informed, ty. split; [by right|]. by split.
Qed.

Lemma add_alert_alerts (ty text : string) (st : _Station) (a : alert) :
  a ∈ alerts (add_alert ty text st) ->
  a ∈ alerts st
  \/ (a = mk_alert ty text
      /\ forall b, b ∈ alerts st -> alert_header_text b <> text).
Proof.
  unfold add_alert. destruct (existsb _ _) eqn:Hex; simpl; [by left|].
  rewrite elem_of_app, list_elem_of_singleton. intros [Ha | ->]; [by left|].
  right. split; [done|]. intros b Hb Heq.
  assert (existsb (fun a0 => String.eqb (alert_header_text a0) text) (alerts st)
          = true); [|congruence].
  apply existsb_exists. exists b. split; [by apply list_elem_of_In|].
  by apply String.eqb_eq.
Qed.

Lemma attaches_same_trains (st st' : _Station) (entity : FeedEntity) (a : alert) :
  same_trains st st' -> attaches st entity a -> attaches st' entity a.
Proof.
  intros (Hjson & HN & HS & _) (Htext & Hne & informed & Hin & Hwhy).
  split; [done|]. split; [done|]. exists informed. split; [done|].
  unfold _get_station_routes. rewrite <- Hjson, <- HN, <- HS. exact Hwhy.
Qed.

Lemma alert_body_justified (service_alerts : list FeedEntity)
    (st st' : _Station) (entity : FeedEntity) :
  entity ∈ service_alerts ->
  alerts_justified service_alerts st ->
  alert_body (_get_station_routes st) st entity = Ret st' ->
  alerts_justified service_alerts st'.
Proof.
  intros Hentity [Hnodup Hall] Hrun. unfold alert_body in Hrun.
  apply bind_Ret in Hrun as (alert_text & Htext & Hrun).
  destruct alert_text as [[|c text]|]; try (by injection Hrun as <-).
  apply informed_loop_outcome in Hrun
    as [->|(informed & ty & Hin & -> & Hwhy)]; [done|].
  pose proof (add_alert_same_trains ty (String c text) st) as Hsame.
  split.
  - unfold add_alert. destruct (existsb _ _) eqn:Hex; [done|]. simpl.
    rewrite map_app. simpl. apply NoDup_app. split; [done|].
    split; [|apply NoDup_singleton].
    intros t Ht Ht'. apply list_elem_of_singleton in Ht' as ->.
    apply list_elem_of_In, in_map_iff in Ht as (b & Hb & Hbin).
    assert (existsb (fun a0 => String.eqb (alert_header_text a0) (String c text))
              (alerts st) = true); [|congruence].
    apply existsb_exists. exists b. split; [done|]. by apply String.eqb_eq.
  - intros a Ha. apply add_alert_alerts in Ha as [Ha|[-> _]].
    + destruct (Hall a Ha) as (Hty & entity' & Hin' & Hatt).
      split; [done|]. exists entity'. split; [done|].
      by apply (attaches_same_trains st).
    + split; [destruct Hwhy as [[-> _]|[-> _]]; auto|].
      exists entity. split; [done|].
      apply (attaches_same_trains st); [done|].
      split; [done|]. split; [done|]. exists informed. split; [done|].
      simpl. destruct Hwhy as [[-> Hstop]|[-> Hroute]]; [by left | by right].
Qed.

Lemma alerts_pass_justified (service_alerts : list FeedEntity)
    (st st' : _Station) :
  alerts st = [] ->
  for_each (alert_body (_get_station_routes st)) service_alerts st = Ret st' ->
  alerts_justified service_alerts st'.
Proof.
  intros Hnone.
  assert (Hgen : forall l s s',
    l ⊆ service_alerts ->
    same_trains st s -> alerts_justified service_alerts s ->
    for_each (alert_body (_get_station_routes st)) l s = Ret s' ->
    alerts_justified service_alerts s').
  { induction l as [|entity l IH]; intros s s' Hl Hsame Hs Hrun; simpl in Hrun.
    - by injection Hrun as <-.
    - apply bind_Ret in Hrun as (s1 & H1 & Hrun).
      assert (Hroutes : _get_station_routes st = _get_station_routes s).
      { destruct Hsame as (_ & HN & HS & _). unfold _get_station_routes.
        by rewrite HN, HS. }
      apply (IH s1 s'); [| | |exact Hrun].
      + intros x Hx. apply Hl. by right.
      + eapply same_trains_trans; [exact Hsame|].
        by apply alert_body_same_trains in H1.
      + rewrite Hroutes in H1.
        apply (alert_body_justified service_alerts s s1 entity);
          [apply Hl; left | done | done]. }
  apply Hgen; [done | apply same_trains_refl |].
  split; [rewrite Hnone; constructor | rewrite Hnone; by intros a ?%elem_of_nil].
Qed.

Lemma add_train_alerts (route_id direction : string) (t ft : Z)
    (st st' : _Station) :
  add_train route_id direction t ft st = Ret st' -> alerts st' = alerts st.
Proof.
  unfold add_train. intros H.
  destruct (String.eqb direction "N");
    [|destruct (String.eqb direction "S"); [|discriminate]];
    by injection H as <-.
Qed.

(** The alerts pass of a rebuild, station by station. *)
Lemma _update_alerts (w : Outside) (self self' : Mtapi) (id : string)
    (st : _Station) :
  _update w self = (Ret tt, self') ->
  (id, st) ∈ _stations self' ->
  alerts_justified
    (if _GET_SERVICE_ALERTS self
     then fetch_service_alerts w (set_last_update (now w) self) else [])
    st.
Proof.
  intros Hup Hin.
  apply _update_Ret in Hup as (collected & stations & Hc & Hf & ->).
  simpl in Hin. apply finish_stations_each in Hf.
  destruct (Forall2_elem_of_r _ _ _ _ Hf Hin) as ([id0 st0] & Hin0 & _ & Hrun).
  simpl in Hrun.
  apply (alerts_pass_justified _ (sort_trains (_MAX_TRAINS self) st0)); [|done].
  simpl.
  assert (Hnone : Forall (fun item => alerts (snd item) = []) (fst collected)).
  { apply (collect_trains_stations w (set_last_update (now w) self)
             (fun s => alerts s = [])); [done | | done].
    intros s s' r d t ft Hs _ _ Hadd.
    by rewrite (add_train_alerts r d t ft s s' Hadd). }
  rewrite Forall_forall in Hnone. apply (Hnone _ Hin0).
Qed.

(** X1. After a rebuild no station holds two alerts with the same header
    text. *)
Theorem X1_alert_texts_distinct (w : Outside) (self self' : Mtapi)
    (id : string) (st : _Station) :
  _update w self = (Ret tt, self') ->
  (id, st) ∈ _stations self' ->
  NoDup (map alert_header_text (alerts st)).
Proof. intros Hup Hin. by destruct (_update_alerts w self self' id st Hup Hin). Qed.

Lemma X1_alert_texts_distinct_witness :
  NoDup (map alert_header_text (alerts (demo_station 10 true "A"))).
Proof.
  apply (X1_alert_texts_distinct demo_outside (demo_blank 10 true)
           (demo_mtapi 10 true) "A").
  - apply demo_update_returns. vm_compute. reflexivity.
  - apply demo_station_elem_of. compute_done.
Defined.

(** X2. After a rebuild every alert of a station has type [stop] or
    [route] and comes from the alerts feed of this cycle: alerts are
    enabled, the feed was loaded, and one of its entities is active at the
    timestamp of the rebuild, has the header text of the alert as its
    [en-html] text (or as the fallback of [_get_alert_text]), not empty,
    and has a reference that matches the station by stop or by route as
    the type says. *)
Theorem X2_alerts_come_from_active_entities (w : Outside) (self self' : Mtapi)
    (id : string) (st : _Station) (a : alert) :
  _update w self = (Ret tt, self') ->
  (id, st) ∈ _stations self' ->
  a ∈ alerts st ->
  _GET_SERVICE_ALERTS self = true
  /\ (alert_type a = "stop"%string \/ alert_type a = "route"%string)
  /\ exists feed alert_entity,
       _load_mta_feed w _SERVICE_ALERT_URL = Some feed
       /\ alert_entity ∈ entity feed
       /\ _is_alert_currently_active alert_entity (int_timestamp (now w)) = true
       /\ attaches st alert_entity a.
Proof.
  intros Hup Hin Ha.
  destruct (_update_alerts w self self' id st Hup Hin) as [_ Hall].
  destruct (Hall a Ha) as (Hty & alert_entity & Hentity & Hatt).
  destruct (_GET_SERVICE_ALERTS self) eqn:Hget; [|by apply elem_of_nil in Hentity].
  split; [done|]. split; [done|].
  unfold fetch_service_alerts in Hentity. simpl in Hentity.
  rewrite Hget in Hentity.
  destruct (_load_mta_feed w _SERVICE_ALERT_URL) as [feed|];
    [|by apply elem_of_nil in Hentity].
  apply list_elem_of_In, filter_In in Hentity as [Hin' Hactive].
  exists feed, alert_entity. split; [done|].
  split; [by apply list_elem_of_In|]. split; [exact Hactive | exact Hatt].
Qed.

Lemma X2_alerts_come_from_active_entities_witness :
  _GET_SERVICE_ALERTS (demo_blank 10 true) = true
  /\ (alert_type (mk_alert "stop" "<p>Stairs closed</p>") = "stop"%string
      \/ alert_type (mk_alert "stop" "<p>Stairs closed</p>") = "route"%string)
  /\ exists feed alert_entity,
       _load_mta_feed demo_outside _SERVICE_ALERT_URL = Some feed
       /\ alert_entity ∈ entity feed
       /\ _is_alert_currently_active alert_entity
            (int_timestamp (now demo_outside)) = true
       /\ attaches (demo_station 10 true "A") alert_entity
            (mk_alert "stop" "<p>Stairs closed</p>").
Proof.
  apply (X2_alerts_come_from_active_entities demo_outside (demo_blank 10 true)
           (demo_mtapi 10 true) "A").
  - apply demo_update_returns. vm_compute. reflexivity.
  - apply demo_station_elem_of. compute_done.
  - vm_compute. left.
Defined.

(** ** The trains and routes that a rebuild publishes *)

Lemma alerts_pass_same_trains (r : gset string) (l : list FeedEntity)
    (st st' : _Station) :
  for_each (alert_body r) l st = Ret st' -> same_trains st st'.
Proof.
  apply (for_each_invariant (same_trains st)); [|apply same_trains_refl].
  intros s x s' _ Hs Hx. eapply same_trains_trans; [exact Hs|].
  by apply alert_body_same_trains in Hx.
Qed.

(** Under every key, what a rebuild publishes is the collected station,
    sorted and truncated, with its alerts. *)
Lemma _update_dict_get (w : Outside) (self self' : Mtapi) :
  _update w self = (Ret tt, self') ->
  exists collected,
    collect_trains w (set_last_update (now w) self) = Ret collected
    /\ _routes self' = snd collected
    /\ _stops_to_stations self' = _stops_to_stations self
    /\ _last_update self' = now w
    /\ forall id,
         match dict_get id (fst collected), dict_get id (_stations self') with
         | Some st0, Some st => same_trains (sort_trains (_MAX_TRAINS self) st0) st
         | None, None => True
         | _, _ => False
         end.
Proof.
  intros Hup.
  apply _update_Ret in Hup as (collected & stations & Hc & Hf & ->).
  exists collected. repeat split; try done. intros id. simpl.
  apply finish_stations_each in Hf.
  apply (dict_get_Forall2
           (fun st0 st => same_trains (sort_trains (_MAX_TRAINS self) st0) st) id).
  eapply Forall2_impl; [exact Hf|].
  intros x y [Hid Hrun]. split; [done|]. simpl in Hrun.
  by apply alerts_pass_same_trains in Hrun.
Qed.

Lemma add_train_fields (route_id direction : string) (t ft : Z)
    (st st' : _Station) :
  add_train route_id direction t ft st = Ret st' ->
  routes st' = routes st ∪ {[route_id]}
  /\ last_update st' = Some ft
  /\ (trains_N st' ++ trains_S st'
      ≡ₚ mk_train route_id t :: trains_N st ++ trains_S st).
Proof.
  unfold add_train. intros H.
  destruct (String.eqb direction "N");
    [|destruct (String.eqb direction "S"); [|discriminate]];
    injection H as <-; simpl; repeat split; try done.
  - rewrite <- app_assoc. simpl.
    by rewrite <- Permutation_middle.
  - rewrite app_assoc. by rewrite <- Permutation_cons_append.
Qed.

Lemma sort_trains_elem_of (max_trains : Z) (st : _Station) (t : train) :
  t ∈ trains_N (sort_trains max_trains st) ++ trains_S (sort_trains max_trains st) ->
  t ∈ trains_N st ++ trains_S st.
Proof.
  simpl. rewrite !elem_of_app.
  intros [H|H]; apply slice_to_subseteq in H;
    rewrite (sorted_perm Z.ltb train_time) in H; auto.
Qed.

(** X3. Every train that a rebuild publishes has a predicted time between
    the timestamp of the rebuild and [max_minutes] later, both included,
    and an upper-case route id; the timestamp of the rebuild is the new
    [_last_update]. *)
Theorem X3_published_trains_in_window (w : Outside) (self self' : Mtapi)
    (id : string) (st : _Station) (t : train) :
  _update w self = (Ret tt, self') ->
  (id, st) ∈ _stations self' ->
  t ∈ trains_N st ++ trains_S st ->
  _last_update self' = now w
  /\ now w <= train_time t <= now w + timedelta_minutes (_MAX_MINUTES self)
  /\ upper (train_route t) = train_route t.
Proof.
  intros Hup Hin Ht.
  apply _update_Ret in Hup as (collected & stations & Hc & Hf & ->).
  split; [reflexivity|]. simpl in Hin.
  destruct (finish_stations_trains _ _ _ _ Hf id st Hin) as (st0 & Hin0 & Hsame).
  destruct Hsame as (_ & HN & HS & _). rewrite <- HN, <- HS in Ht.
  apply sort_trains_elem_of in Ht.
  assert (Hall : Forall
    (fun item => forall t0, t0 ∈ trains_N (snd item) ++ trains_S (snd item) ->
       now w <= train_time t0 <= now w + timedelta_minutes (_MAX_MINUTES self)
       /\ upper (train_route t0) = train_route t0) (fst collected)).
  { apply (collect_trains_stations w (set_last_update (now w) self)
             (fun s => forall t0, t0 ∈ trains_N s ++ trains_S s ->
                now w <= train_time t0
                  <= now w + timedelta_minutes (_MAX_MINUTES self)
                /\ upper (train_route t0) = train_route t0)); [| |done].
    - intros s t0 Ht0. by apply elem_of_nil in Ht0.
    - intros s s' r d t1 ft Hs Hup Hwin Hadd t0 Ht0. simpl in Hwin.
      apply add_train_fields in Hadd as (_ & _ & Hperm).
      rewrite Hperm in Ht0. apply elem_of_cons in Ht0 as [->|Ht0]; auto. }
  rewrite Forall_forall in Hall. by apply (Hall _ Hin0).
Qed.

Lemma X3_published_trains_in_window_witness :
  _last_update (demo_mtapi 10 false) = now demo_outside
  /\ now demo_outside <= train_time (mk_train "C" (demo_now + timedelta_minutes 2))
     <= now demo_outside + timedelta_minutes (_MAX_MINUTES (demo_blank 10 false))
  /\ upper (train_route (mk_train "C" (demo_now + timedelta_minutes 2)))
     = train_route (mk_train "C" (demo_now + timedelta_minutes 2)).
Proof.
  apply (X3_published_trains_in_window demo_outside (demo_blank 10 false)
           (demo_mtapi 10 false) "A" (demo_station 10 false "A")).
  - apply demo_update_returns. vm_compute. reflexivity.
  - apply demo_station_elem_of. compute_done.
  - vm_compute. left.
Defined.

Lemma routes_add_lookup (route_id stop_id r : string)
    (routes : gmap string (gset string)) :
  routes_add route_id stop_id routes !! r
  = if decide (route_id = r)
    then Some (default ∅ (routes !! route_id) ∪ {[stop_id]})
    else routes !! r.
Proof. unfold routes_add. apply lookup_insert. Qed.

Lemma route_serves_add (idx : gmap string string)
    (routes : gmap string (gset string)) (route_id stop_id sid r id : string) :
  idx !! stop_id = Some sid ->
  route_serves idx (routes_add route_id stop_id routes) r id
  <-> route_serves idx routes r id \/ (r = route_id /\ id = sid).
Proof.
  intros Hidx. unfold route_serves. setoid_rewrite routes_add_lookup. split.
  - intros (stops & k & Hlook & Hk & Hid). destruct (decide (route_id = r)) as [<-|Hne].
    + injection Hlook as <-. apply elem_of_union in Hk as [Hk|Hk].
      * left. destruct (routes !! route_id) as [old|]; simpl in Hk;
          [by exists old, k | by apply elem_of_empty in Hk].
      * apply elem_of_singleton in Hk as ->. right. split; [done|].
        congruence.
    + left. by exists stops, k.
  - intros [(stops & k & Hlook & Hk & Hid)|[-> ->]].
    + destruct (decide (route_id = r)) as [<-|Hne].
      * exists (default ∅ (routes !! route_id) ∪ {[stop_id]}), k.
        split; [done|]. split; [|done]. rewrite Hlook. simpl.
        apply elem_of_union. by left.
      * by exists stops, k.
    + rewrite decide_True by done.
      exists (default ∅ (routes !! route_id) ∪ {[stop_id]}), stop_id.
      split; [done|]. split; [|done]. apply elem_of_union. right.
      by apply elem_of_singleton.
Qed.

(** While trains are collected, the routes of each station are the routes
    under which the route index lists it. *)
Lemma collect_trains_routes_agree (w : Outside) (self : Mtapi)
    (collected : working) :
  collect_trains w self = Ret collected ->
  forall id st r,
    dict_get id (fst collected) = Some st ->
    r ∈ routes st
    <-> route_serves (_stops_to_stations self) (snd collected) r id.
Proof.
  apply (collect_trains_invariant w self
           (fun acc => forall id st r,
              dict_get id (fst acc) = Some st ->
              r ∈ routes st
              <-> route_serves (_stops_to_stations self) (snd acc) r id)).
  - intros id st r. simpl. rewrite dict_get_map_values.
    destruct (dict_get id (_stations self)); simpl; [|discriminate].
    intros [= <-]. simpl. split; [by intros ?%elem_of_empty|].
    intros (stops & k & Hlook & _). by rewrite lookup_empty in Hlook.
  - intros acc sid station station' route d t ft stop Hacc _ _ Hidx Hget Hadd.
    intros id st r. simpl.
    rewrite (dict_get_replace sid id station' station) by done.
    rewrite (route_serves_add _ _ _ _ sid) by done.
    apply add_train_fields in Hadd as (Hroutes & _).
    destruct (String.eqb_spec id sid) as [->|Hne].
    + intros [= <-]. rewrite Hroutes, elem_of_union, elem_of_singleton.
      rewrite (Hacc sid station r Hget).
      split; [intros [?|?]; auto | intros [?|[? _]]; auto].
    + intros Hst. rewrite (Hacc id st r Hst).
      split; [auto | by intros [?|[_ ?]]].
Qed.

(** X4. After a rebuild the route index and the stations agree: a route
    id is in the [routes] of the station under a key exactly when the index
    has, for that route, a stop id that the index of stops gives to that
    station. So [get_by_route] finds the stations that list the route. *)
Theorem X4_route_index_agrees_with_stations (w : Outside) (self self' : Mtapi)
    (id r : string) (st : _Station) :
  _update w self = (Ret tt, self') ->
  dict_get id (_stations self') = Some st ->
  r ∈ routes st
  <-> route_serves (_stops_to_stations self') (_routes self') r id.
Proof.
  intros Hup Hget.
  apply _update_dict_get in Hup as (collected & Hc & -> & -> & _ & Hall).
  specialize (Hall id). rewrite Hget in Hall.
  destruct (dict_get id (fst collected)) as [st0|] eqn:Hget0; [|done].
  destruct Hall as (_ & _ & _ & Hroutes & _). simpl in Hroutes.
  rewrite <- Hroutes.
  apply (collect_trains_routes_agree w (set_last_update (now w) self)
           collected Hc id st0 r Hget0).
Qed.

Lemma X4_route_index_agrees_with_stations_witness :
  "7"%string ∈ routes (demo_station 10 false "A")
  <-> route_serves (_stops_to_stations (demo_mtapi 10 false))
        (_routes (demo_mtapi 10 false)) "7" "A".
Proof.
  apply (X4_route_index_agrees_with_stations demo_outside (demo_blank 10 false)).
  - apply demo_update_returns. vm_compute. reflexivity.
  - by_evaluation.
Defined.

(** X5. The route index that a rebuild publishes has upper-case keys,
    and under each key a set of stop ids that is not empty and whose
    members are keys of the index of stops. *)
Theorem X5_route_index_well_formed (w : Outside) (self self' : Mtapi)
    (r : string) (stops : gset string) :
  _update w self = (Ret tt, self') ->
  _routes self' !! r = Some stops ->
  upper r = r
  /\ stops <> ∅
  /\ forall k, k ∈ stops -> is_Some (_stops_to_stations self' !! k).
Proof.
  intros Hup Hr.
  apply _update_dict_get in Hup as (collected & Hc & Hroutes & -> & _).
  rewrite Hroutes in Hr. revert r stops Hr.
  apply (collect_trains_invariant w (set_last_update (now w) self)
           (fun acc => forall r stops,
              snd acc !! r = Some stops ->
              upper r = r /\ stops <> ∅
              /\ forall k, k ∈ stops -> is_Some (_stops_to_stations self !! k)));
    [| |exact Hc].
  - intros r stops Hr. simpl in Hr. by rewrite lookup_empty in Hr.
  - intros acc sid station station' route d t ft stop Hacc Hup _ Hidx _ _.
    intros r stops. simpl. rewrite routes_add_lookup.
    destruct (decide (route = r)) as [<-|Hne]; [|apply Hacc].
    intros [= <-]. split; [done|]. split.
    + intros Hempty. apply (not_elem_of_empty (C:=gset string) stop).
      rewrite <- Hempty. apply elem_of_union. right. by apply elem_of_singleton.
    + intros k Hk. apply elem_of_union in Hk as [Hk|Hk].
      * destruct (snd acc !! route) as [old|] eqn:Hold; simpl in Hk.
        -- by apply (Hacc route old Hold).
        -- by apply elem_of_empty in Hk.
      * apply elem_of_singleton in Hk as ->. simpl in Hidx. by rewrite Hidx.
Qed.

Lemma X5_route_index_well_formed_witness :
  upper "7" = "7"%string
  /\ ({["A1"%string; "A2"%string]} : gset string) <> ∅
  /\ forall k, k ∈ ({["A1"%string; "A2"%string]} : gset string) ->
       is_Some (_stops_to_stations (demo_mtapi 10 false) !! k).
Proof.
  apply (X5_route_index_well_formed demo_outside (demo_blank 10 false)
           (demo_mtapi 10 false)).
  - apply demo_update_returns. vm_compute. reflexivity.
  - vm_compute. reflexivity.
Defined.

Lemma route_set_empty (l : list train) :
  list_to_set (map train_route l) = (∅ : gset string) -> l = [].
Proof.
  destruct l as [|t l]; [done|]. simpl. intros H.
  exfalso. apply (not_elem_of_empty (C:=gset string) (train_route t)).
  rewrite <- H. apply elem_of_union. left. by apply elem_of_singleton.
Qed.

(** X6. After a rebuild a station has no [last_update] exactly when its
    set of routes is empty, and then both of its train lists are empty
    and every alert that it holds has type [stop]: a station that no
    stop-time update reached has the trains, routes and feed time that
    [clear_train_data] left, and can hold alerts only by its stops. *)
Theorem X6_untouched_station (w : Outside) (self self' : Mtapi) (id : string)
    (st : _Station) :
  _update w self = (Ret tt, self') ->
  (id, st) ∈ _stations self' ->
  (last_update st = None <-> routes st = ∅)
  /\ (routes st = ∅ ->
      trains_N st = [] /\ trains_S st = []
      /\ forall a, a ∈ alerts st -> alert_type a = "stop"%string).
Proof.
  intros Hup Hin.
  destruct (_update_alerts w self self' id st Hup Hin) as [_ Hjust].
  apply _update_Ret in Hup as (collected & stations & Hc & Hf & ->).
  simpl in Hin.
  destruct (finish_stations_trains _ _ _ _ Hf id st Hin) as (st0 & Hin0 & Hsame).
  destruct Hsame as (_ & HN & HS & HR & HL). simpl in HN, HS, HR, HL.
  assert (Hall : Forall
    (fun item => (last_update (snd item) = None <-> routes (snd item) = ∅)
                 /\ routes (snd item) = _get_station_routes (snd item))
    (fst collected)).
  { apply (collect_trains_stations w (set_last_update (now w) self)
             (fun s => (last_update s = None <-> routes s = ∅)
                       /\ routes s = _get_station_routes s)); [| |done].
    - intros s. split; [done|]. apply (clear_train_data_routes_match id).
    - intros s s' r d t ft [_ Hs] _ _ Hadd. split.
      + apply add_train_fields in Hadd as (Hr & Hl & _). rewrite Hr, Hl.
        split; [done|]. intros Hempty. exfalso.
        apply (not_elem_of_empty (C:=gset string) r). rewrite <- Hempty.
        apply elem_of_union. right. by apply elem_of_singleton.
      + by apply (add_train_routes_match id r d t ft s s'). }
  rewrite Forall_forall in Hall. destruct (Hall _ Hin0) as [Hiff Hmatch].
  simpl in Hiff, Hmatch. rewrite <- HL, <- HR. split; [exact Hiff|].
  intros Hempty. rewrite Hempty in Hmatch. symmetry in Hmatch.
  apply route_set_empty, app_eq_nil in Hmatch as [HN0 HS0].
  assert (HNS : trains_N st = [] /\ trains_S st = []).
  { rewrite <- HN, <- HS, HN0, HS0. unfold slice_to, sorted. simpl.
    by destruct (_MAX_TRAINS self <? 0); rewrite !take_nil. }
  destruct HNS as [HNe HSe]. split; [done|]. split; [done|].
  intros a Ha.
  destruct (Hjust a Ha) as (_ & e & _ & _ & _ & informed & _ & Hwhy).
  destruct Hwhy as [[Hty _]|[_ Hroute]]; [done|].
  unfold route_applies, _get_station_routes in Hroute.
  rewrite HNe, HSe in Hroute. simpl in Hroute.
  destruct (informed_route_id informed) as [r|]; [|done].
  apply bool_decide_eq_true in Hroute. by apply elem_of_empty in Hroute.
Qed.

Lemma X6_untouched_station_witness :
  ((last_update (demo_station_same_text "B") = None
    <-> routes (demo_station_same_text "B") = ∅)
   /\ (routes (demo_station_same_text "B") = ∅ ->
       trains_N (demo_station_same_text "B") = []
       /\ trains_S (demo_station_same_text "B") = []
       /\ forall a, a ∈ alerts (demo_station_same_text "B") ->
            alert_type a = "stop"%string))
  /\ alerts (demo_station_same_text "B") = [mk_alert "stop" "Lift out"].
Proof.
  split; [|vm_compute; reflexivity].
  apply (X6_untouched_station (demo_outside_with demo_same_text_alerts)
           (demo_blank 10 true) demo_mtapi_same_text "B").
  - by_evaluation.
  - apply dict_get_elem_of. by_evaluation.
Defined.

(** ** What a rebuild keeps and what it ignores *)

(** X7. A rebuild that returns publishes the same stations, in the same
    order and each with its catalog record unchanged, and leaves the index
    of stops and the configuration as they were. *)
Theorem X7_rebuild_keeps_catalog (w : Outside) (self self' : Mtapi) :
  _update w self = (Ret tt, self') ->
  map catalog_of (_stations self') = map catalog_of (_stations self)
  /\ _stops_to_stations self' = _stops_to_stations self
  /\ _MAX_TRAINS self' = _MAX_TRAINS self
  /\ _MAX_MINUTES self' = _MAX_MINUTES self
  /\ _EXPIRES_SECONDS self' = _EXPIRES_SECONDS self
  /\ _THREADED self' = _THREADED self
  /\ _GET_SERVICE_ALERTS self' = _GET_SERVICE_ALERTS self.
Proof.
  intros Hup. destruct (_update_catalog w self self' Hup) as [Hcat Hidx].
  apply _update_Ret in Hup as (collected & stations & _ & _ & ->).
  by repeat split.
Qed.

Lemma X7_rebuild_keeps_catalog_witness :
  map catalog_of (_stations (demo_mtapi 10 true))
  = map catalog_of (_stations (demo_blank 10 true))
  /\ _stops_to_stations (demo_mtapi 10 true)
     = _stops_to_stations (demo_blank 10 true)
  /\ _MAX_TRAINS (demo_mtapi 10 true) = _MAX_TRAINS (demo_blank 10 true)
  /\ _MAX_MINUTES (demo_mtapi 10 true) = _MAX_MINUTES (demo_blank 10 true)
  /\ _EXPIRES_SECONDS (demo_mtapi 10 true) = _EXPIRES_SECONDS (demo_blank 10 true)
  /\ _THREADED (demo_mtapi 10 true) = _THREADED (demo_blank 10 true)
  /\ _GET_SERVICE_ALERTS (demo_mtapi 10 true)
     = _GET_SERVICE_ALERTS (demo_blank 10 true).
Proof.
  apply (X7_rebuild_keeps_catalog demo_outside).
  apply demo_update_returns. vm_compute. reflexivity.
Defined.

(** X8. When the rebuild that a query triggers raises, the query raises
    the same exception after that one call of [_update]; stations, route
    index and index of stops stay as they were, but [_last_update] is
    already the time of the failed rebuild, so that in the passive mode no
    query rebuilds again before [expires_seconds] have passed since the
    failure. *)
Theorem X8_failed_rebuild_keeps_snapshot (w : World) (self : Mtapi) (e : exn)
    (point : float * float) (limit : Z) (route : string) (ids : list string) :
  is_expired w self = true ->
  fst (_update (rebuild w) self) = Raise e ->
  result (get_by_point w point limit self) = Raise e
  /\ result (get_by_route w route self) = Raise e
  /\ result (get_by_id w ids self) = Raise e
  /\ rebuilds (get_by_id w ids self) = 1%nat
  /\ after (get_by_point w point limit self)
     = set_last_update (now (rebuild w)) self
  /\ after (get_by_route w route self) = set_last_update (now (rebuild w)) self
  /\ after (get_by_id w ids self) = set_last_update (now (rebuild w)) self
  /\ forall w',
       _THREADED self = false ->
       expiry_clock w' - now (rebuild w) <= _EXPIRES_SECONDS self * 1000000 ->
       is_expired w' (set_last_update (now (rebuild w)) self) = false.
Proof.
  intros Hexp Hfail.
  assert (Hsnd : snd (_update (rebuild w) self)
                 = set_last_update (now (rebuild w)) self).
  { revert Hfail. unfold _update.
    destruct (collect_trains (rebuild w) _) as [collected|e1]; simpl.
    - destruct (finish_stations _ _ _); simpl; [discriminate | by intros _].
    - by intros _. }
  assert (Hfresh : refresh w self
                   = mk_Outcome (Raise e)
                       (set_last_update (now (rebuild w)) self) 1).
  { unfold refresh. rewrite Hexp.
    destruct (_update (rebuild w) self) as [raised self1].
    simpl in Hfail, Hsnd. by subst. }
  unfold get_by_point, get_by_route, get_by_id. rewrite Hfresh. simpl.
  repeat split. intros w' Hth Hclock.
  unfold is_expired, total_seconds_gt. simpl. rewrite Hth. simpl.
  destruct (_EXPIRES_SECONDS self =? 0); simpl; [done|].
  apply Z.ltb_ge. lia.
Qed.

Lemma X8_failed_rebuild_keeps_snapshot_witness :
  result (get_by_id demo_world_broken ["A"%string] (demo_mtapi 10 true))
  = Raise UnboundLocalError
  /\ _stations (after (get_by_id demo_world_broken ["A"%string]
                          (demo_mtapi 10 true)))
     = _stations (demo_mtapi 10 true).
Proof.
  destruct (X8_failed_rebuild_keeps_snapshot demo_world_broken
              (demo_mtapi 10 true) UnboundLocalError (0%float, 0%float) 5 "7"
              ["A"%string])
    as (_ & _ & Hres & _ & _ & _ & Hafter & _).
  - vm_compute. reflexivity.
  - vm_compute. reflexivity.
  - split; [exact Hres|]. by rewrite Hafter.
Defined.

Lemma for_each_skip {A S : Type} (body : S -> A -> pyres S) (l : list A) (s : S) :
  (forall x, x ∈ l -> body s x = Ret s) -> for_each body l s = Ret s.
Proof.
  induction l as [|x l IH]; intros Hskip; simpl; [reflexivity|].
  rewrite Hskip by left. simpl. apply IH. intros y Hy. apply Hskip. by right.
Qed.

Lemma sort_trains_clear (max_trains : Z) (st : _Station) :
  sort_trains max_trains (clear_train_data st) = clear_train_data st.
Proof.
  unfold sort_trains, clear_train_data, slice_to, sorted. simpl.
  by destruct (max_trains <? 0); rewrite !take_nil.
Qed.

(** X9. When none of the trip feeds can be loaded, the trains of the
    previous snapshot are not kept: a rebuild that returns publishes an
    empty route index and stations without trains, routes or
    [last_update]; and it does return, with every station as
    [clear_train_data] leaves it, when the alerts are disabled or their
    feed cannot be loaded either. *)
Theorem X9_no_feed_no_trains (w : Outside) (self : Mtapi) :
  (forall url, url ∈ _FEED_URLS -> _load_mta_feed w url = None) ->
  (forall self' id st,
     _update w self = (Ret tt, self') ->
     (id, st) ∈ _stations self' ->
     _routes self' = ∅
     /\ trains_N st = [] /\ trains_S st = [] /\ routes st = ∅
     /\ last_update st = None)
  /\ (_GET_SERVICE_ALERTS self = false
      \/ _load_mta_feed w _SERVICE_ALERT_URL = None ->
      _update w self
      = (Ret tt,
         publish
           (map (fun item => (fst item, clear_train_data (snd item)))
              (_stations self), ∅)
           (set_last_update (now w) self))).
Proof.
  intros Hdown.
  assert (Hcollect : forall self0,
    collect_trains w self0
    = Ret (map (fun item => (fst item, clear_train_data (snd item)))
             (_stations self0), ∅)).
  { intros self0. unfold collect_trains. apply for_each_skip.
    intros url Hurl. unfold feed_body. by rewrite (Hdown url Hurl). }
  split.
  - intros self' id st Hup Hin.
    apply _update_Ret in Hup as (collected & stations & Hc & Hf & ->).
    rewrite Hcollect in Hc. injection Hc as <-. simpl in Hin, Hf. simpl.
    destruct (finish_stations_trains _ _ _ _ Hf id st Hin)
      as (st1 & Hin1 & Hsame).
    apply list_elem_of_In, in_map_iff in Hin1 as ([id0 st0] & [= -> <-] & _).
    rewrite sort_trains_clear in Hsame.
    destruct Hsame as (_ & HN & HS & HR & HL). simpl in HN, HS, HR, HL.
    by repeat split.
  - intros Hoff. unfold _update. rewrite Hcollect. simpl.
    assert (Hnone : fetch_service_alerts w (set_last_update (now w) self) = []).
    { unfold fetch_service_alerts. simpl.
      destruct (_GET_SERVICE_ALERTS self); [|done].
      destruct Hoff as [?| ->]; done. }
    rewrite Hnone. unfold finish_stations. simpl. rewrite andb_false_r. simpl.
    rewrite map_map. simpl. f_equal. unfold publish. simpl. f_equal.
    apply map_ext. intros item. by rewrite sort_trains_clear.
Qed.

Lemma X9_no_feed_no_trains_witness :
  _update demo_outage (demo_mtapi 10 true)
  = (Ret tt,
     publish
       (map (fun item => (fst item, clear_train_data (snd item)))
          (_stations (demo_mtapi 10 true)), ∅)
       (set_last_update (now demo_outage) (demo_mtapi 10 true))).
Proof.
  apply (X9_no_feed_no_trains demo_outage (demo_mtapi 10 true)).
  - intros url _. reflexivity.
  - right. reflexivity.
Defined.

(** X10. A rebuild starts from the catalog alone: with the same answers
    from the outside it raises or returns as it would for the object that
    [__init__] builds from the catalog, and what it publishes when it
    returns is the same. No train, route, alert or timestamp of the
    previous snapshot has any influence. *)
Theorem X10_rebuild_from_scratch (w : Outside) (self : Mtapi) :
  fst (_update w (from_catalog self)) = fst (_update w self)
  /\ (fst (_update w self) = Ret tt ->
      _update w (from_catalog self) = _update w self).
Proof.
  assert (Hcollect :
    collect_trains w (set_last_update (now w) (from_catalog self))
    = collect_trains w (set_last_update (now w) self)).
  { unfold collect_trains. simpl. rewrite map_map. simpl.
    change (for_each (feed_body w (set_last_update (now w) (from_catalog self))))
      with (for_each (feed_body w (set_last_update (now w) self))).
    reflexivity. }
  assert (Hfinish : forall stations,
    finish_stations (set_last_update (now w) (from_catalog self))
      (fetch_service_alerts w (set_last_update (now w) (from_catalog self)))
      stations
    = finish_stations (set_last_update (now w) self)
        (fetch_service_alerts w (set_last_update (now w) self)) stations)
    by reflexivity.
  unfold _update. rewrite !Hcollect.
  destruct (collect_trains w (set_last_update (now w) self))
    as [collected|e]; simpl; [|split; [done | discriminate]].
  rewrite !Hfinish.
  destruct (finish_stations (set_last_update (now w) self) _ _)
    as [stations|e]; simpl; split; done || discriminate.
Qed.

(** ** The index of stops *)

Lemma foldl_insert_lookup (station_id : string) (stop_ids : list string)
    (acc : gmap string string) (k : string) :
  foldl (fun stops stop_id => <[stop_id := station_id]> stops) acc stop_ids !! k
  = if decide (k ∈ stop_ids) then Some station_id else acc !! k.
Proof.
  revert acc. induction stop_ids as [|s l IH]; intros acc; cbn [foldl].
  - rewrite decide_False; [done | by intros ?%elem_of_nil].
  - rewrite IH. destruct (decide (k ∈ l)) as [Hl|Hl].
    + rewrite decide_True; [done | by right].
    + destruct (decide (k = s)) as [->|Hne].
      * rewrite decide_True by left. by rewrite lookup_insert_eq.
      * rewrite decide_False; [by rewrite lookup_insert_ne|].
        by intros [?|?]%elem_of_cons.
Qed.

(** One iteration of [_build_stops_index]. *)
Lemma build_stops_step (acc acc' : gmap string string)
    (item : string * _Station) :
  (let '(station_id, station) := item in
   v ← station_getitem "stops" station;
   stop_ids ← keys v;
   Ret (foldl (fun stops stop_id => <[stop_id := station_id]> stops)
          acc stop_ids)) = Ret acc' ->
  exists stop_ids,
    has_stops (snd item) stop_ids
    /\ forall k, acc' !! k
                 = if decide (k ∈ stop_ids) then Some (fst item) else acc !! k.
Proof.
  destruct item as [sid st]. intros H.
  apply bind_Ret in H as (v & Hv & H). apply bind_Ret in H as (l & Hl & H).
  injection H as <-. unfold station_getitem in Hv.
  destruct (json st !! "stops"%string) as [v'|] eqn:Hjson; [|discriminate].
  injection Hv as ->. destruct v as [| | | | | |items]; try discriminate.
  injection Hl as <-. exists (map fst items). split; [by exists items|].
  intros k. apply foldl_insert_lookup.
Qed.

Lemma build_stops_from (stations : list (string * _Station))
    (acc idx : gmap string string) :
  for_each
    (fun (stops : gmap string string) '(station_id, station) =>
       v ← station_getitem "stops" station;
       stop_ids ← keys v;
       Ret (foldl (fun stops stop_id => <[stop_id := station_id]> stops)
              stops stop_ids))
    stations acc = Ret idx ->
  Forall (fun item => exists stop_ids, has_stops (snd item) stop_ids) stations
  /\ (forall k station_id,
        idx !! k = Some station_id ->
        acc !! k = Some station_id
        \/ exists st stop_ids,
             (station_id, st) ∈ stations /\ has_stops st stop_ids
             /\ k ∈ stop_ids)
  /\ (forall k, is_Some (acc !! k) -> is_Some (idx !! k))
  /\ (forall pre station_id st post stop_ids k,
        stations = pre ++ (station_id, st) :: post ->
        has_stops st stop_ids -> k ∈ stop_ids ->
        (forall item l, item ∈ post -> has_stops (snd item) l -> k ∉ l) ->
        idx !! k = Some station_id).
Proof.
  revert acc. induction stations as [|item stations IH]; intros acc H.
  - simpl in H. injection H as <-. split; [constructor|].
    split; [by left|]. split; [done|].
    intros [|? ?] ? ? ? ? ? Heq; discriminate Heq.
  - simpl in H. apply bind_Ret in H as (acc1 & Hstep & Hrest).
    apply (build_stops_step acc acc1 item) in Hstep as (l & Hl & Hacc1).
    destruct (IH acc1 Hrest) as (Hall & Hsound & Hmono & Hlast).
    split; [constructor; eauto|]. split; [|split].
    + intros k sid Hk. destruct (Hsound k sid Hk) as [Hk1|(st & l' & Hin & Hst & Hkl)].
      * rewrite Hacc1 in Hk1. destruct (decide (k ∈ l)) as [Hkl|_]; [|by left].
        injection Hk1 as <-. right. exists (snd item), l.
        split; [destruct item; left | done].
      * right. exists st, l'. split; [by right | done].
    + intros k Hk. apply Hmono. rewrite Hacc1.
      by destruct (decide (k ∈ l)).
    + intros pre sid st post l' k Heq Hst Hk Hpost.
      destruct pre as [|item' pre]; simpl in Heq; injection Heq as -> ->.
      * assert (Hposts : forall acc2 idx2 post2,
          (forall item l, item ∈ post2 -> has_stops (snd item) l -> k ∉ l) ->
          for_each
            (fun (stops : gmap string string) '(station_id, station) =>
               v ← station_getitem "stops" station;
               stop_ids ← keys v;
               Ret (foldl (fun stops stop_id => <[stop_id := station_id]> stops)
                      stops stop_ids))
            post2 acc2 = Ret idx2 -> idx2 !! k = acc2 !! k).
        { intros acc2 idx2 post2. revert acc2.
          induction post2 as [|p post2 IHp]; intros acc2 Hno Hrun; simpl in Hrun.
          - by injection Hrun as <-.
          - apply bind_Ret in Hrun as (acc3 & Hstep3 & Hrun).
            apply (build_stops_step acc2 acc3 p) in Hstep3 as (l3 & Hl3 & Hacc3).
            rewrite (IHp acc3); [|intros i li Hi; apply Hno; by right | done].
            rewrite Hacc3, decide_False; [done|]. apply (Hno p); [left | done]. }
        rewrite (Hposts acc1 idx post Hpost Hrest), Hacc1.
        destruct Hl as (items & Hj & ->). destruct Hst as (items' & Hj' & ->).
        simpl in Hj, Hj'. rewrite Hj in Hj'. injection Hj' as <-.
        by rewrite decide_True.
      * by apply (Hlast pre sid st post l' k).
Qed.

(** X11. When [_build_stops_index] returns, every station has a [stops]
    dictionary; every entry of the index maps a stop id to a station that
    lists it; every stop id of every station is in the index; and a stop id
    that several stations list goes to the last of them. *)
Theorem X11_stops_index_sound_and_complete
    (stations : list (string * _Station)) (idx : gmap string string) :
  _build_stops_index stations = Ret idx ->
  Forall (fun item => exists stop_ids, has_stops (snd item) stop_ids) stations
  /\ (forall k station_id,
        idx !! k = Some station_id ->
        exists st stop_ids,
          (station_id, st) ∈ stations /\ has_stops st stop_ids /\ k ∈ stop_ids)
  /\ (forall station_id st stop_ids k,
        (station_id, st) ∈ stations -> has_stops st stop_ids -> k ∈ stop_ids ->
        is_Some (idx !! k))
  /\ (forall pre station_id st post stop_ids k,
        stations = pre ++ (station_id, st) :: post ->
        has_stops st stop_ids -> k ∈ stop_ids ->
        (forall item l, item ∈ post -> has_stops (snd item) l -> k ∉ l) ->
        idx !! k = Some station_id).
Proof.
  unfold _build_stops_index. intros H.
  destruct (build_stops_from stations ∅ idx H) as (Hall & Hsound & _ & Hlast).
  split; [exact Hall|]. split; [|split; [|exact Hlast]].
  - intros k sid Hk. destruct (Hsound k sid Hk) as [Hempty|?]; [|done].
    by rewrite lookup_empty in Hempty.
  - intros sid st l k Hin Hst Hk.
    apply list_elem_of_split in Hin as (pre & post & ->).
    clear Hall Hsound Hlast. revert H. generalize (∅ : gmap string string).
    induction pre as [|p pre IH]; intros acc H; simpl in H.
    + apply bind_Ret in H as (acc1 & Hstep & Hrest).
      apply (build_stops_step acc acc1 (sid, st)) in Hstep as (l1 & Hl1 & Hacc1).
      destruct (build_stops_from post acc1 idx Hrest) as (_ & _ & Hmono & _).
      apply Hmono. rewrite Hacc1.
      destruct Hl1 as (items & Hj & ->). destruct Hst as (items' & Hj' & ->).
      simpl in Hj. rewrite Hj in Hj'. injection Hj' as <-.
      by rewrite decide_True.
    + apply bind_Ret in H as (acc1 & _ & Hrest). by apply (IH acc1).
Qed.

Lemma X11_stops_index_sound_and_complete_witness :
  Forall (fun item => exists stop_ids, has_stops (snd item) stop_ids)
    (_stations (demo_blank 10 false))
  /\ (forall k station_id,
        _stops_to_stations (demo_blank 10 false) !! k = Some station_id ->
        exists st stop_ids,
          (station_id, st) ∈ _stations (demo_blank 10 false)
          /\ has_stops st stop_ids /\ k ∈ stop_ids).
Proof.
  destruct (X11_stops_index_sound_and_complete (_stations (demo_blank 10 false))
              (_stops_to_stations (demo_blank 10 false)))
    as (Hall & Hsound & _).
  - vm_compute. reflexivity.
  - split; [exact Hall | exact Hsound].
Defined.

(** ** Objects that a program can hold *)

Lemma map_fst_catalog (l : list (string * _Station)) :
  map fst (map catalog_of l) = map fst l.
Proof. rewrite map_map. by apply map_ext. Qed.

Lemma consistent_update (w : Outside) (self : Mtapi) :
  consistent self -> consistent (snd (_update w self)).
Proof.
  intros [Hidx Hroutes].
  destruct (_update w self) as [[[]|e] self'] eqn:Hup; simpl.
  - destruct (_update_catalog w self self' Hup) as [Hcat Hsame].
    pose proof (_update_route_index w self self' Hup) as Hknown.
    split.
    + intros k sid Hk. rewrite Hsame in Hk. apply dict_get_is_Some.
      apply Hidx, dict_get_is_Some in Hk.
      assert (Hfst : map fst (_stations self') = map fst (_stations self)).
      { by rewrite <- (map_fst_catalog (_stations self')), Hcat, map_fst_catalog. }
      by rewrite Hfst.
    + intros r stops k Hr Hk. by apply (Hknown r stops Hr).
  - assert (Hself : self' = set_last_update (now w) self).
    { revert Hup. unfold _update.
      destruct (collect_trains w _) as [collected|e1]; simpl.
      - destruct (finish_stations _ _ _); simpl; [discriminate | by intros [= _ <-]].
      - by intros [= _ <-]. }
    subst self'. by split.
Qed.

Lemma consistent_refresh (w : World) (self : Mtapi) :
  consistent self -> consistent (after (refresh w self)).
Proof.
  intros Hself. unfold refresh. destruct (is_expired w self); [|done].
  pose proof (consistent_update (rebuild w) self Hself) as Hup.
  by destruct (_update (rebuild w) self).
Qed.

Lemma consistent_routes_getitem (route : string) (self : Mtapi) :
  consistent self -> consistent (snd (routes_getitem route self)).
Proof.
  intros [Hidx Hroutes]. unfold routes_getitem.
  destruct (_routes self !! route) eqn:Hroute; simpl; [done|].
  split; [exact Hidx|]. intros r stops k. simpl.
  destruct (decide (route = r)) as [<-|Hne].
  - rewrite lookup_insert_eq. intros [= <-] Hk. by apply elem_of_empty in Hk.
  - rewrite lookup_insert_ne by done. apply Hroutes.
Qed.

Lemma get_by_route_after (w : World) (route : string) (self : Mtapi) :
  after (get_by_route w route self)
  = match result (refresh w self) with
    | Ret _ => snd (routes_getitem (upper route) (after (refresh w self)))
    | Raise _ => after (refresh w self)
    end.
Proof.
  unfold get_by_route. destruct (result (refresh w self)); [|done].
  by destruct (routes_getitem _ _).
Qed.

Lemma reachable_consistent (self : Mtapi) : reachable self -> consistent self.
Proof.
  induction 1 as [cat es mt mm th sa w self Hinit | w self _ IH
                 | w point limit self _ IH | w route self _ IH
                 | w ids self _ IH].
  - unfold __init__ in Hinit. apply bind_Ret in Hinit as (idx & Hidx & Hinit).
    set (self0 := mk_Mtapi mt mm es th sa
                    (map (fun item => (fst item, new_Station (snd item))) cat)
                    idx ∅ (now w)) in Hinit.
    assert (H0 : consistent self0).
    { split; [|intros r stops k Hr; simpl in Hr; by rewrite lookup_empty in Hr].
      intros k sid Hk. simpl in Hk. simpl.
      destruct (build_stops_from _ ∅ idx Hidx) as (_ & Hsound & _).
      destruct (Hsound k sid Hk) as [Hempty|(st & l & Hin & _)];
        [by rewrite lookup_empty in Hempty|].
      apply dict_get_is_Some, list_elem_of_In, in_map_iff.
      exists (sid, st). split; [done | by apply list_elem_of_In]. }
    pose proof (consistent_update w self0 H0) as Hup.
    destruct (_update w self0) as [[[]|e] self1]; [|discriminate].
    by injection Hinit as <-.
  - by apply consistent_update.
  - destruct (query_after w self point limit []) as [-> _].
    by apply consistent_refresh.
  - rewrite get_by_route_after. destruct (result (refresh w self)).
    + by apply consistent_routes_getitem, consistent_refresh.
    + by apply consistent_refresh.
  - destruct (query_after w self (0%float, 0%float) 0 ids) as [_ ->].
    by apply consistent_refresh.
Qed.

Lemma named_refresh (w : World) (self : Mtapi) :
  named self -> named (after (refresh w self)).
Proof.
  intros Hnamed. unfold refresh. destruct (is_expired w self); [|done].
  destruct (_update (rebuild w) self) as [[[]|e] self'] eqn:Hup; simpl.
  - destruct (_update_catalog (rebuild w) self self' Hup) as [Hcat _].
    intros id st Hin.
    assert (Hc : catalog_of (id, st) ∈ map catalog_of (_stations self')).
    { apply list_elem_of_In, in_map. by apply list_elem_of_In. }
    rewrite Hcat in Hc.
    apply list_elem_of_In, in_map_iff in Hc as ([id0 st0] & Heq & Hin0).
    unfold catalog_of in Heq. simpl in Heq. injection Heq as -> Hjson.
    rewrite <- Hjson. apply (Hnamed id st0). by apply list_elem_of_In.
  - assert (Hself : self' = set_last_update (now (rebuild w)) self).
    { revert Hup. unfold _update.
      destruct (collect_trains (rebuild w) _) as [collected|e1]; simpl.
      - destruct (finish_stations _ _ _); simpl; [discriminate | by intros [= _ <-]].
      - by intros [= _ <-]. }
    by subst self'.
Qed.

(** X12. On an object built by [__init__] and then rebuilt and queried
    any number of times, the lookups of [get_by_route] cannot miss: when
    the stations have display names and the refresh of the query returns,
    [get_by_route] returns a list for every route id, known or not. The
    index of stops names stations of the snapshot and the route index
    names stop ids of the index of stops, all along. *)
Theorem X12_get_by_route_returns (w : World) (route : string) (self : Mtapi) :
  reachable self ->
  named self ->
  result (refresh w self) = Ret tt ->
  consistent self
  /\ consistent (after (get_by_route w route self))
  /\ exists out, result (get_by_route w route self) = Ret out.
Proof.
  intros Hreach Hnamed Hfresh.
  pose proof (reachable_consistent self Hreach) as Hself.
  split; [exact Hself|].
  split; [by apply reachable_consistent, reachable_get_by_route|].
  pose proof (consistent_refresh w self Hself) as [Hidx Hroutes].
  pose proof (named_refresh w self Hnamed) as Hnames.
  destruct (_routes (after (refresh w self)) !! (upper route)) as [stops|] eqn:Hr.
  - destruct (owners_comprehension (after (refresh w self)) (elements stops))
      as (owners & _ & Hown & Hrun).
    { intros k Hk. apply elem_of_elements in Hk.
      destruct (Hroutes _ _ _ Hr Hk) as [sid Hsid].
      destruct (Hidx _ _ Hsid) as [st Hst].
      destruct (Hnames sid st (dict_get_elem_of _ _ _ Hst)) as [name Hname].
      exists st, name. split; [by exists sid | done]. }
    destruct (names_comprehension (map serialize owners))
      as (keyed & Hk & Hsort & _ & _).
    { apply Forall_map. eapply Forall_impl; [exact Hown|].
      intros station [name Hname]. exists name. unfold display_name.
      by rewrite serialize_lookup, Hname. }
    exists (map snd (stable_sort String.ltb keyed)).
    unfold get_by_route. rewrite Hfresh. unfold routes_getitem. rewrite Hr.
    cbv iota beta. rewrite Hrun. cbn [mbind pyres_bind].
    rewrite Hk. cbn [mbind pyres_bind]. rewrite Hsort. cbn [mbind pyres_bind].
    by rewrite map_snd_keys.
  - exists []. unfold get_by_route. rewrite Hfresh. unfold routes_getitem.
    rewrite Hr. cbv iota beta. by rewrite elements_empty.
Qed.

Lemma X12_get_by_route_returns_witness :
  consistent (demo_mtapi 1 false)
  /\ consistent (after (get_by_route demo_world "7" (demo_mtapi 1 false)))
  /\ exists out, result (get_by_route demo_world "7" (demo_mtapi 1 false)) = Ret out.
Proof.
  apply (X12_get_by_route_returns demo_world "7" (demo_mtapi 1 false)).
  - apply (reachable_init demo_catalog 60 1 30 false false demo_outside).
    by_evaluation.
  - intros id st Hin.
    apply elem_of_cons in Hin as [Hin|Hin];
      [|apply elem_of_cons in Hin as [Hin|Hin]; [|by apply elem_of_nil in Hin]];
      injection Hin as -> ->; eexists; vm_compute; reflexivity.
  - vm_compute. reflexivity.
Defined.

(** ** The queries by id and by point *)

Lemma comprehension_Ret_iff {A B : Type} (f : A -> pyres B) (l : list A)
    (out : list B) :
  comprehension f l = Ret out <-> Forall2 (fun x y => f x = Ret y) l out.
Proof.
  split; [apply comprehension_Forall2|].
  induction 1 as [|x y l out Hxy _ IH]; simpl; [done|].
  by rewrite Hxy, IH.
Qed.

(** X13. When its refresh returns, [get_by_id] leaves the object as the
    refresh left it and returns the list [out] exactly when [out] holds,
    id by id and in the order of the ids, the serialized station of the
    snapshot under that id (twice for an id given twice); and it raises
    [KeyError] as soon as one id is not a key of the snapshot. *)
Theorem X13_get_by_id_in_order (w : World) (ids : list string) (self : Mtapi) :
  result (refresh w self) = Ret tt ->
  after (get_by_id w ids self) = after (refresh w self)
  /\ (forall out,
        result (get_by_id w ids self) = Ret out
        <-> Forall2
              (fun k o =>
                 exists st,
                   dict_get k (_stations (after (refresh w self))) = Some st
                   /\ o = serialize st)
              ids out)
  /\ (forall k,
        k ∈ ids ->
        dict_get k (_stations (after (refresh w self))) = None ->
        result (get_by_id w ids self) = Raise KeyError).
Proof.
  intros Hfresh. split; [|split].
  - unfold get_by_id. by rewrite Hfresh.
  - intros out. unfold get_by_id. rewrite Hfresh. simpl.
    rewrite comprehension_Ret_iff.
    split; intros H; (eapply Forall2_impl; [exact H|]); clear H; intros k o.
    + unfold stations_getitem. destruct (dict_get k _) as [st|]; simpl;
        [|discriminate]. intros [= <-]. by exists st.
    + intros (st & Hst & ->). unfold stations_getitem. by rewrite Hst.
  - intros k Hk Hnone. by apply (get_by_id_absent w ids k).
Qed.

Lemma X13_get_by_id_in_order_witness :
  result (get_by_id demo_world ["B"; "A"; "B"]%string (demo_mtapi 10 false))
  = Ret [ serialize (demo_station 10 false "B");
          serialize (demo_station 10 false "A");
          serialize (demo_station 10 false "B") ].
Proof.
  destruct (X13_get_by_id_in_order demo_world ["B"; "A"; "B"]%string
              (demo_mtapi 10 false)) as (_ & Hiff & _).
  - vm_compute. reflexivity.
  - apply Hiff.
    constructor; [|constructor; [|constructor; [|constructor]]].
    + exists (demo_station 10 false "B"). split; [by_evaluation | reflexivity].
    + exists (demo_station 10 false "A"). split; [by_evaluation | reflexivity].
    + exists (demo_station 10 false "B"). split; [by_evaluation | reflexivity].
Defined.

Lemma Forall2_map_snd {A B : Type} (l : list A) (k : list (B * A)) :
  Forall2 (fun x p => snd p = x) l k -> map snd k = l.
Proof. induction 1 as [|x p l k Hp _ IH]; simpl; [done|]. by rewrite Hp, IH. Qed.

(** X14. When [get_by_point] returns a list, [limit] is not negative, the
    list has at most [limit] elements, and each of them is a serialized
    station of the snapshot; with a [limit] that reaches the number of
    stations the list has every station exactly once. A negative [limit]
    never yields a list. *)
Theorem X14_get_by_point_bounded (w : World) (point : float * float)
    (limit : Z) (self : Mtapi) (out : list (gmap string value)) :
  result (get_by_point w point limit self) = Ret out ->
  0 <= limit
  /\ Z.of_nat (length out) <= limit
  /\ (forall o, o ∈ out ->
        exists id st,
          (id, st) ∈ _stations (after (refresh w self)) /\ o = serialize st)
  /\ (Z.of_nat (length (_stations (after (refresh w self)))) <= limit ->
      out ≡ₚ map (fun item => serialize (snd item))
               (_stations (after (refresh w self)))).
Proof.
  unfold get_by_point. destruct (result (refresh w self)); [|discriminate].
  simpl. intros H. apply bind_Ret in H as (keyed & Hkeyed & H).
  destruct (Z.ltb_spec limit 0) as [?|Hlimit]; [discriminate|].
  injection H as <-.
  assert (Hsnd : map snd keyed = map snd (_stations (after (refresh w self)))).
  { apply Forall2_map_snd. apply comprehension_Forall2 in Hkeyed.
    eapply Forall2_impl; [exact Hkeyed|]. intros s p Hp. simpl in Hp.
    apply bind_Ret in Hp as (loc & _ & Hp). apply bind_Ret in Hp as (d & _ & Hp).
    by injection Hp as <-. }
  assert (Hperm : map serialize (map snd (stable_sort PrimFloat.ltb keyed))
                  ≡ₚ map (fun item => serialize (snd item))
                       (_stations (after (refresh w self)))).
  { rewrite stable_sort_perm, Hsnd. by rewrite map_map. }
  split; [done|]. split; [rewrite length_take; lia|]. split.
  - intros o Ho. apply elem_of_take in Ho as (i & Ho & _).
    apply list_elem_of_lookup_2 in Ho. rewrite Hperm in Ho.
    apply list_elem_of_In, in_map_iff in Ho as ([id st] & <- & Hin).
    exists id, st. split; [by apply list_elem_of_In | done].
  - intros Hall. rewrite take_ge; [done|].
    rewrite Hperm, length_map. lia.
Qed.

Lemma X14_get_by_point_bounded_witness :
  0 <= 1
  /\ Z.of_nat (length [serialize (demo_station 10 false "A")]) <= 1
  /\ (forall o, o ∈ [serialize (demo_station 10 false "A")] ->
        exists id st,
          (id, st) ∈ _stations (after (refresh demo_world (demo_mtapi 10 false)))
          /\ o = serialize st)
  /\ (Z.of_nat
        (length (_stations (after (refresh demo_world (demo_mtapi 10 false)))))
      <= 1 ->
      [serialize (demo_station 10 false "A")]
      ≡ₚ map (fun item => serialize (snd item))
           (_stations (after (refresh demo_world (demo_mtapi 10 false))))).
Proof.
  apply (X14_get_by_point_bounded demo_world (0%float, 0%float) 1
           (demo_mtapi 10 false)).
  by_evaluation.
Defined.



(** ** Which trains [sort_trains] keeps *)

Lemma StronglySorted_app_le {A : Type} (R : A -> A -> Prop) (l1 l2 : list A) :
  StronglySorted R (l1 ++ l2) -> forall a b, a ∈ l1 -> b ∈ l2 -> R a b.
Proof.
  induction l1 as [|x l1 IH]; simpl; intros Hs a b Ha Hb.
  - by apply elem_of_nil in Ha.
  - inversion Hs as [|? ? Hrest Hall]; subst.
    apply elem_of_cons in Ha as [->|Ha]; [|by apply IH].
    rewrite Forall_forall in Hall. apply Hall, elem_of_app. by right.
Qed.

Lemma sorted_time_split (n : nat) (l : list train) :
  l ≡ₚ take n (sorted Z.ltb train_time l) ++ drop n (sorted Z.ltb train_time l)
  /\ forall a b,
       a ∈ take n (sorted Z.ltb train_time l) ->
       b ∈ drop n (sorted Z.ltb train_time l) ->
       train_time a <= train_time b.
Proof.
  split; [by rewrite take_drop, sorted_perm|].
  apply (StronglySorted_app_le (fun a b => train_time a <= train_time b)).
  rewrite take_drop. apply Sorted_StronglySorted.
  - intros a b c. lia.
  - eapply Sorted_weaken; [|apply sorted_Sorted; intros a b; lia].
    intros a b. simpl. lia.
Qed.

Lemma slice_to_is_take {A : Type} (stop : Z) (l : list A) :
  exists n,
    slice_to stop l = take n l
    /\ n = (if stop <? 0 then Z.to_nat (Z.of_nat (length l) + stop)
            else Z.to_nat stop).
Proof. unfold slice_to. destruct (stop <? 0); eauto. Qed.

(** X16. Whatever [max_trains] is, [sort_trains] keeps of each direction
    the trains that come first in time: the list of the direction is the
    kept trains together with dropped ones, none of which is earlier than
    a kept one. It keeps [max_trains] trains, or all when there are fewer;
    a negative [max_trains] drops that many of the latest trains instead.
    Catalog entry, routes, alerts and feed time are not touched. *)
Theorem X16_sort_trains_keeps_earliest (max_trains : Z) (st : _Station) :
  (exists dropped,
     trains_N st ≡ₚ trains_N (sort_trains max_trains st) ++ dropped
     /\ forall a b,
          a ∈ trains_N (sort_trains max_trains st) -> b ∈ dropped ->
          train_time a <= train_time b)
  /\ (exists dropped,
        trains_S st ≡ₚ trains_S (sort_trains max_trains st) ++ dropped
        /\ forall a b,
             a ∈ trains_S (sort_trains max_trains st) -> b ∈ dropped ->
             train_time a <= train_time b)
  /\ Z.of_nat (length (trains_N (sort_trains max_trains st)))
     = (if max_trains <? 0
        then Z.max 0 (Z.of_nat (length (trains_N st)) + max_trains)
        else Z.min max_trains (Z.of_nat (length (trains_N st))))
  /\ Z.of_nat (length (trains_S (sort_trains max_trains st)))
     = (if max_trains <? 0
        then Z.max 0 (Z.of_nat (length (trains_S st)) + max_trains)
        else Z.min max_trains (Z.of_nat (length (trains_S st))))
  /\ json (sort_trains max_trains st) = json st
  /\ routes (sort_trains max_trains st) = routes st
  /\ alerts (sort_trains max_trains st) = alerts st
  /\ last_update (sort_trains max_trains st) = last_update st.
Proof.
  assert (Hkept : forall l,
    exists dropped,
      l ≡ₚ slice_to max_trains (sorted Z.ltb train_time l) ++ dropped
      /\ forall a b,
           a ∈ slice_to max_trains (sorted Z.ltb train_time l) -> b ∈ dropped ->
           train_time a <= train_time b).
  { intros l.
    destruct (slice_to_is_take max_trains (sorted Z.ltb train_time l))
      as (n & -> & _).
    exists (drop n (sorted Z.ltb train_time l)). apply sorted_time_split. }
  assert (Hlen : forall l,
    Z.of_nat (length (slice_to max_trains (sorted Z.ltb train_time l)))
    = (if max_trains <? 0 then Z.max 0 (Z.of_nat (length l) + max_trains)
       else Z.min max_trains (Z.of_nat (length l)))).
  { intros l. unfold slice_to.
    pose proof (Permutation_length (sorted_perm Z.ltb train_time l)) as Hl.
    destruct (Z.ltb_spec max_trains 0); rewrite length_take; lia. }
  simpl. split; [apply Hkept|]. split; [apply Hkept|].
  split; [apply Hlen|]. split; [apply Hlen|]. done.
Qed.

Section Stability.
Context {A : Type} (key : A -> Z).

Lemma insert_sorted_filter (t : Z) (x : Z * A) (l : list (Z * A)) :
  filter (fun p => fst p = t) (insert_sorted Z.ltb x l)
  = filter (fun p => fst p = t) (x :: l).
Proof.
  induction l as [|y l IH]; simpl; [done|].
  destruct (Z.ltb_spec (fst y) (fst x)) as [Hlt|Hge]; [|done].
  rewrite (filter_cons _ y), IH, !filter_cons.
  repeat case_decide; try done; lia.
Qed.

Lemma stable_sort_filter (t : Z) (l : list (Z * A)) :
  filter (fun p => fst p = t) (stable_sort Z.ltb l)
  = filter (fun p => fst p = t) l.
Proof.
  induction l as [|x l IH]; simpl; [done|].
  by rewrite insert_sorted_filter, !filter_cons, IH.
Qed.

Lemma filter_undecorate (t : Z) (l : list (Z * A)) :
  Forall (fun p => fst p = key (snd p)) l ->
  filter (fun a => key a = t) (map snd l)
  = map snd (filter (fun p => fst p = t) l).
Proof.
  induction 1 as [|p l Hp _ IH]; simpl; [done|].
  rewrite !filter_cons, IH, Hp. by case_decide.
Qed.

(** Python's [sorted] is stable: the elements of one key stand in the
    result as they stood in the list. *)
Lemma sorted_filter (t : Z) (l : list A) :
  filter (fun a => key a = t) (sorted Z.ltb key l)
  = filter (fun a => key a = t) l.
Proof.
  unfold sorted.
  rewrite (filter_undecorate t); [|apply stable_sort_keys].
  rewrite stable_sort_filter.
  induction l as [|x l IH]; simpl; [done|].
  rewrite !filter_cons. simpl. case_decide; simpl; by rewrite IH.
Qed.
End Stability.

Lemma prefix_filter {A : Type} (P : A -> Prop) `{!forall x, Decision (P x)}
    (l k : list A) :
  l `prefix_of` k -> filter P l `prefix_of` filter P k.
Proof. intros [rest ->]. rewrite filter_app. by eexists. Qed.

(** X17. Among the trains of one arrival time, [sort_trains] keeps the
    first ones of the list in the order of the list: trains of equal time
    are never reordered, and when one of them is cut it is a later one. *)
Theorem X17_sort_trains_is_stable (max_trains t : Z) (st : _Station) :
  filter (fun a => train_time a = t) (trains_N (sort_trains max_trains st))
  `prefix_of` filter (fun a => train_time a = t) (trains_N st)
  /\ filter (fun a => train_time a = t) (trains_S (sort_trains max_trains st))
     `prefix_of` filter (fun a => train_time a = t) (trains_S st)
  /\ (Z.of_nat (length (trains_N st)) <= max_trains ->
      filter (fun a => train_time a = t) (trains_N (sort_trains max_trains st))
      = filter (fun a => train_time a = t) (trains_N st)).
Proof.
  assert (Hprefix : forall l,
    filter (fun a => train_time a = t)
      (slice_to max_trains (sorted Z.ltb train_time l))
    `prefix_of` filter (fun a => train_time a = t) l).
  { intros l. rewrite <- (sorted_filter train_time t l).
    destruct (slice_to_take max_trains (sorted Z.ltb train_time l)) as [n ->].
    apply prefix_filter, prefix_take. }
  simpl. split; [apply Hprefix|]. split; [apply Hprefix|].
  intros Hall. rewrite <- (sorted_filter train_time t (trains_N st)).
  f_equal. unfold slice_to.
  pose proof (Permutation_length (sorted_perm Z.ltb train_time (trains_N st))).
  destruct (Z.ltb_spec max_trains 0); [lia|]. apply take_ge. lia.
Qed.

(** ** The header text of an alert, in general *)

(** X18. [_get_alert_text] raises [UnboundLocalError] on an alert without
    translations. On any other alert it returns: the text of the first
    translation in the requested language when there is one; otherwise
    the text of the LAST translation when that one is the ['en'] one, and
    [None] when it is not, whatever ['en'] translation stands before. *)
Theorem X18_get_alert_text_cases (alert_entity : FeedEntity) (language : string) :
  (header_text_translation alert_entity = [] ->
   _get_alert_text alert_entity language = Raise UnboundLocalError)
  /\ (forall pre t post,
        header_text_translation alert_entity = pre ++ t :: post ->
        (forall t', t' ∈ pre -> translation_language t' <> language) ->
        translation_language t = language ->
        _get_alert_text alert_entity language
        = Ret (Some (translation_text t)))
  /\ (forall pre t,
        header_text_translation alert_entity = pre ++ [t] ->
        (forall t', t' ∈ pre ++ [t] -> translation_language t' <> language) ->
        _get_alert_text alert_entity language
        = Ret (if String.eqb (translation_language t) "en"
               then Some (translation_text t) else None))
  /\ (header_text_translation alert_entity <> [] ->
      exists text, _get_alert_text alert_entity language = Ret text).
Proof.
  unfold _get_alert_text. split; [by intros ->|].
  split; [intros pre t post ->; apply _get_alert_text_loop_requested|].
  split; [intros pre t ->; apply _get_alert_text_loop_fallback|].
  intros Hne. destruct (header_text_translation alert_entity) as [|t l]; [done|].
  clear Hne. simpl.
  assert (Hbound : forall l e, exists text,
            _get_alert_text_loop l language (Some e) = Ret text).
  { clear. induction l as [|t l IH]; intros e; simpl; [by eexists|].
    destruct (String.eqb (translation_language t) language); [by eexists|].
    destruct (String.eqb (translation_language t) "en"); apply IH. }
  destruct (String.eqb (translation_language t) language); [by eexists|].
  destruct (String.eqb (translation_language t) "en"); apply Hbound.
Qed.

(** ** Construction *)

(** X19. An object that [__init__] returns holds the catalog of the
    stations file, station by station and in its order, the index of
    stops built from that catalog, the parameters it was given, and the
    time of its construction as the time of its snapshot. *)
Theorem X19_init_stores_arguments
    (stations_file : list (string * gmap string jvalue))
    (expires_seconds max_trains max_minutes : Z) (threaded service_alerts : bool)
    (w : Outside) (self : Mtapi) :
  __init__ stations_file expires_seconds max_trains max_minutes threaded
    service_alerts w = Ret self ->
  map catalog_of (_stations self) = stations_file
  /\ _build_stops_index
       (map (fun item => (fst item, new_Station (snd item))) stations_file)
     = Ret (_stops_to_stations self)
  /\ _MAX_TRAINS self = max_trains
  /\ _MAX_MINUTES self = max_minutes
  /\ _EXPIRES_SECONDS self = expires_seconds
  /\ _THREADED self = threaded
  /\ _GET_SERVICE_ALERTS self = service_alerts
  /\ _last_update self = now w.
Proof.
  intros Hinit. unfold __init__ in Hinit.
  apply bind_Ret in Hinit as (idx & Hidx & Hinit).
  set (self0 := mk_Mtapi max_trains max_minutes expires_seconds threaded
                  service_alerts
                  (map (fun item => (fst item, new_Station (snd item)))
                     stations_file)
                  idx ∅ (now w)) in Hinit.
  destruct (_update w self0) as [[[]|e] self1] eqn:Hup; [|discriminate].
  injection Hinit as Heq. subst self1.
  destruct (_update_catalog w self0 self Hup) as [Hcat Hstops].
  apply _update_Ret in Hup as (collected & stations & _ & _ & Hself).
  rewrite Hcat, Hstops. rewrite Hself. simpl.
  split; [|by repeat split].
  rewrite map_map. rewrite <- (map_id stations_file) at 2.
  apply map_ext. by intros [id entry].
Qed.

Lemma X19_init_stores_arguments_witness :
  map catalog_of (_stations (demo_mtapi 10 false)) = demo_catalog
  /\ _build_stops_index
       (map (fun item => (fst item, new_Station (snd item))) demo_catalog)
     = Ret (_stops_to_stations (demo_mtapi 10 false))
  /\ _MAX_TRAINS (demo_mtapi 10 false) = 10
  /\ _MAX_MINUTES (demo_mtapi 10 false) = 30
  /\ _EXPIRES_SECONDS (demo_mtapi 10 false) = 60
  /\ _THREADED (demo_mtapi 10 false) = false
  /\ _GET_SERVICE_ALERTS (demo_mtapi 10 false) = false
  /\ _last_update (demo_mtapi 10 false) = now demo_outside.
Proof.
  apply (X19_init_stores_arguments demo_catalog 60 10 30 false false
           demo_outside (demo_mtapi 10 false)).
  by_evaluation.
Defined.

(** ** Nearest first *)

Lemma SFcompare_antisym (f1 f2 : SpecFloat.spec_float) :
  SpecFloat.SFcompare f2 f1 = option_map CompOpp (SpecFloat.SFcompare f1 f2).
Proof.
  destruct f1 as [s1|s1| |s1 m1 e1], f2 as [s2|s2| |s2 m2 e2]; simpl;
    try reflexivity; try (destruct s1; reflexivity);
    try (destruct s2; reflexivity); try (destruct s1, s2; reflexivity).
  destruct s1, s2; simpl; try reflexivity;
    rewrite (Z.compare_antisym e1 e2); destruct (e1 ?= e2); simpl;
    try reflexivity.
  all: assert (H : PosDef.Pos.compare_cont Eq m2 m1
                   = CompOpp (PosDef.Pos.compare_cont Eq m1 m2))
         by (symmetry; exact (Pos.compare_cont_antisym m1 m2 Eq)).
  all: by rewrite H.
Qed.

Lemma SFcompare_None (f1 f2 : SpecFloat.spec_float) :
  SpecFloat.SFcompare f1 f2 = None
  -> f1 = SpecFloat.S754_nan \/ f2 = SpecFloat.S754_nan.
Proof. destruct f1, f2; simpl; try discriminate; auto. Qed.

Lemma float_ltb_asym (a b : float) :
  PrimFloat.ltb a b = true -> PrimFloat.ltb b a = false.
Proof.
  rewrite !FloatAxioms.ltb_spec. unfold SpecFloat.SFltb.
  rewrite (SFcompare_antisym (FloatOps.Prim2SF a) (FloatOps.Prim2SF b)).
  destruct (SpecFloat.SFcompare (FloatOps.Prim2SF a) (FloatOps.Prim2SF b))
    as [[]|]; simpl; congruence.
Qed.

Lemma float_leb_of_not_ltb (a b : float) :
  PrimFloat.is_nan a = false -> PrimFloat.is_nan b = false ->
  PrimFloat.ltb b a = false -> PrimFloat.leb a b = true.
Proof.
  unfold PrimFloat.is_nan.
  rewrite !FloatAxioms.eqb_spec, FloatAxioms.ltb_spec, FloatAxioms.leb_spec.
  unfold SpecFloat.SFeqb, SpecFloat.SFltb, SpecFloat.SFleb.
  rewrite (SFcompare_antisym (FloatOps.Prim2SF a) (FloatOps.Prim2SF b)).
  destruct (SpecFloat.SFcompare (FloatOps.Prim2SF a) (FloatOps.Prim2SF b))
    as [[]|] eqn:Hc; simpl; try done.
  by destruct (SFcompare_None _ _ Hc) as [->| ->].
Qed.

Lemma Forall2_map_both {A B C : Type} (P : B -> C -> Prop) (g : A -> B)
    (h : A -> C) (l : list A) :
  Forall (fun x => P (g x) (h x)) l -> Forall2 P (map g l) (map h l).
Proof. induction 1; simpl; by constructor. Qed.

Lemma Sorted_map_strengthen {A B : Type} (P : A -> Prop) (R : A -> A -> Prop)
    (R' : B -> B -> Prop) (f : A -> B) (l : list A) :
  (forall a b, P a -> P b -> R a b -> R' (f a) (f b)) ->
  Forall P l -> Sorted R l -> Sorted R' (map f l).
Proof.
  intros HR HP. induction 1 as [|x l _ IH Hhd]; simpl; [constructor|].
  inversion HP as [|? ? Hx Hl]; subst. constructor; [by apply IH|].
  destruct Hhd as [|y l Hxy]; simpl; constructor.
  inversion Hl; subst. by apply HR.
Qed.

(** X20. The stations that [get_by_point] returns stand nearest first:
    when no station is at a distance that is not a number, the list is
    made of serialized stations of the snapshot whose distances to the
    point, as [distance] computes them with the [pow] of the platform,
    never decrease along the list. *)
Theorem X20_get_by_point_nearest_first (w : World) (point : float * float)
    (limit : Z) (self : Mtapi) (out : list (gmap string value)) :
  result (get_by_point w point limit self) = Ret out ->
  distances_are_numbers (libm_pow w) point (_stations (after (refresh w self)))
  = true ->
  exists ds,
    Forall2
      (fun o d =>
         exists id st,
           (id, st) ∈ _stations (after (refresh w self))
           /\ o = serialize st /\ distance_to (libm_pow w) point st = Ret d)
      out ds
    /\ Sorted (fun a b => PrimFloat.leb a b = true) ds.
Proof.
  unfold get_by_point. destruct (result (refresh w self)); [|discriminate].
  simpl. intros H Hnum. apply bind_Ret in H as (keyed & Hkeyed & H).
  destruct (Z.ltb_spec limit 0) as [?|Hlimit]; [discriminate|].
  injection H as <-.
  apply comprehension_Forall2 in Hkeyed.
  assert (Hkey : forall p,
    p ∈ keyed ->
    exists id, (id, snd p) ∈ _stations (after (refresh w self))
               /\ distance_to (libm_pow w) point (snd p) = Ret (fst p)).
  { intros p Hp.
    destruct (Forall2_elem_of_r _ _ _ p Hkeyed Hp) as (s & Hs & Hsp).
    apply list_elem_of_In, in_map_iff in Hs as ([id st] & <- & Hin).
    simpl in Hsp. apply bind_Ret in Hsp as (loc & Hloc & Hsp).
    apply bind_Ret in Hsp as (d & Hd & Hsp). injection Hsp as <-. simpl.
    exists id. split; [by apply list_elem_of_In|].
    unfold distance_to. by rewrite Hloc. }
  set (sk := stable_sort PrimFloat.ltb keyed).
  assert (Hsk : forall p, p ∈ sk -> p ∈ keyed).
  { intros p. unfold sk. by rewrite stable_sort_perm. }
  exists (map fst (take (Z.to_nat limit) sk)). split.
  - rewrite map_map, firstn_map. apply Forall2_map_both, Forall_take.
    apply Forall_forall. intros p Hp.
    destruct (Hkey p (Hsk p Hp)) as (id & Hin & Hd).
    by exists id, (snd p).
  - apply (Sorted_map_strengthen
             (fun p => PrimFloat.is_nan (fst p) = false) (key_le PrimFloat.ltb)).
    + intros p q Hp Hq Hpq. by apply float_leb_of_not_ltb.
    + apply Forall_take, Forall_forall. intros p Hp.
      destruct (Hkey p (Hsk p Hp)) as (id & Hin & Hd).
      unfold distances_are_numbers in Hnum. rewrite forallb_forall in Hnum.
      apply list_elem_of_In in Hin. specialize (Hnum _ Hin). simpl in Hnum.
      rewrite Hd in Hnum. by apply negb_true_iff in Hnum.
    + apply Sorted_take, stable_sort_Sorted, float_ltb_asym.
Qed.

Lemma X20_get_by_point_nearest_first_witness :
  exists ds,
    Forall2
      (fun o d =>
         exists id st,
           (id, st) ∈ _stations (after (refresh demo_world (demo_mtapi 10 false)))
           /\ o = serialize st
           /\ distance_to demo_pow (3%float, 3%float) st = Ret d)
      [ serialize (demo_station 10 false "B");
        serialize (demo_station 10 false "A") ] ds
    /\ Sorted (fun a b => PrimFloat.leb a b = true) ds.
Proof.
  apply (X20_get_by_point_nearest_first demo_world (3%float, 3%float) 5
           (demo_mtapi 10 false)).
  - by_evaluation.
  - vm_compute. reflexivity.
Defined.

(** * The rebuild, update by update and reference by reference *)

(** ** C7: which stop-time updates give a station its trains *)

Lemma fmap_app_nil {T : Type} (o : option (list T)) :
  (fun k => k ++ []) <$> o = o.
Proof. destruct o; simpl; [by rewrite app_nil_r | done]. Qed.

(** A loop whose iterations each append to a list of the state appends
    what they append together. *)
Lemma for_each_appends {A S T : Type} (body : S -> A -> pyres S)
    (view : S -> option (list T)) (contrib : A -> list T) (l : list A) :
  (forall s x s', x ∈ l -> body s x = Ret s' ->
     view s' = (fun k => k ++ contrib x) <$> view s) ->
  forall s s', for_each body l s = Ret s' ->
  view s' = (fun k => k ++ flat_map contrib l) <$> view s.
Proof.
  induction l as [|x l IH]; intros Hbody s s' Hrun; simpl in Hrun.
  - injection Hrun as <-. simpl. by rewrite fmap_app_nil.
  - apply bind_Ret in Hrun as (s1 & H1 & Hrest).
    rewrite (IH (fun s0 y s0' Hy => Hbody s0 y s0' (list_elem_of_further _ _ _ Hy))
               s1 s' Hrest).
    rewrite (Hbody s x s1 (list_elem_of_here _ _) H1).
    destruct (view s); simpl; [|done]. by rewrite <- app_assoc.
Qed.

(** A loop whose iterations return and keep an invariant returns. *)
Lemma for_each_returns {A S : Type} (I : S -> Prop) (body : S -> A -> pyres S)
    (l : list A) :
  (forall s x, x ∈ l -> I s -> exists s', body s x = Ret s' /\ I s') ->
  forall s, I s -> exists s', for_each body l s = Ret s' /\ I s'.
Proof.
  induction l as [|x l IH]; intros Hbody s Hs; simpl; [eauto|].
  destruct (Hbody s x) as (s1 & H1 & Hs1); [left | done |]. rewrite H1. simpl.
  apply IH; [|done]. intros s0 y Hy. apply Hbody. by right.
Qed.

Lemma flat_map_if {A B : Type} (b : bool) (f : A -> list B) (l : list A) :
  flat_map (fun x => if b then f x else []) l = if b then flat_map f l else [].
Proof. destruct b; [done|]. by induction l. Qed.

Lemma add_train_trains_of (route_id direction d : string) (t ft : Z)
    (st st' : _Station) :
  d = "N"%string \/ d = "S"%string ->
  add_train route_id direction t ft st = Ret st' ->
  trains_of d st'
  = trains_of d st ++ (if String.eqb direction d then [mk_train route_id t] else []).
Proof.
  intros Hd H. unfold add_train in H.
  destruct (String.eqb_spec direction "N") as [->|HN].
  - injection H as <-.
    destruct Hd as [->| ->]; unfold trains_of; simpl; [done | by rewrite app_nil_r].
  - destruct (String.eqb_spec direction "S") as [->|HS]; [|discriminate].
    injection H as <-.
    destruct Hd as [->| ->]; unfold trains_of; simpl; [by rewrite app_nil_r | done].
Qed.

(** One iteration over a stop-time update appends to the list of a
    station and a direction the train that the update is to them. *)
Lemma stop_time_update_body_trains (self : Mtapi) (max_time : Z)
    (route_id direction : string) (ft : Z) (acc acc' : working)
    (update : TripStop) (id d : string) :
  d = "N"%string \/ d = "S"%string ->
  stop_time_update_body self max_time route_id direction ft acc update = Ret acc' ->
  trains_of d <$> dict_get id (fst acc')
  = (fun k =>
       k ++ (if String.eqb direction d
             then update_trains (_stops_to_stations self) (_last_update self)
                    max_time id route_id update
             else []))
    <$> (trains_of d <$> dict_get id (fst acc)).
Proof.
  intros Hd. unfold stop_time_update_body, update_trains.
  destruct (Z.ltb_spec (TripStop_time update) (_last_update self)) as [Hlo|Hlo];
    destruct (Z.ltb_spec max_time (TripStop_time update)) as [Hhi|Hhi];
    destruct (Z.leb_spec (_last_update self) (TripStop_time update)) as [Hlo'|Hlo'];
    destruct (Z.leb_spec (TripStop_time update) max_time) as [Hhi'|Hhi'];
    try lia; cbn [orb andb];
    try (intros [= <-]; destruct (String.eqb direction d); by rewrite fmap_app_nil).
  destruct (_stops_to_stations self !! TripStop_stop_id update) as [sid|] eqn:Hidx.
  - destruct (dict_get sid (fst acc)) as [station|] eqn:Hget; [|discriminate].
    intros H. apply bind_Ret in H as (station' & Hadd & H). injection H as <-.
    cbn [fst]. rewrite (dict_get_replace sid id station' station _ Hget).
    destruct (String.eqb_spec id sid) as [->|Hne].
    + rewrite Hget, bool_decide_eq_true_2 by done. simpl. f_equal.
      rewrite (add_train_trains_of _ _ d _ _ _ _ Hd Hadd).
      by destruct (String.eqb direction d).
    + rewrite bool_decide_eq_false_2 by congruence.
      destruct (String.eqb direction d); by rewrite fmap_app_nil.
  - intros [= <-]. rewrite bool_decide_eq_false_2 by done.
    destruct (String.eqb direction d); by rewrite fmap_app_nil.
Qed.

Lemma entity_body_trains (self : Mtapi) (max_time ft : Z) (acc acc' : working)
    (trip : FeedEntity) (id d : string) :
  d = "N"%string \/ d = "S"%string ->
  entity_body self max_time ft acc trip = Ret acc' ->
  trains_of d <$> dict_get id (fst acc')
  = (fun k =>
       k ++ entity_trains (_stops_to_stations self) (_last_update self) max_time
              id d trip)
    <$> (trains_of d <$> dict_get id (fst acc)).
Proof.
  intros Hd. unfold entity_body, entity_trains, starts_with.
  destruct (trip_is_valid trip); cbn [negb andb];
    [|intros [= <-]; by rewrite fmap_app_nil].
  intros H. apply bind_Ret in H as (direction & Hdir & H). rewrite Hdir.
  rewrite <- flat_map_if. revert H.
  apply (for_each_appends _
           (fun acc0 : working => trains_of d <$> dict_get id (fst acc0))).
  intros s u s' _. by apply stop_time_update_body_trains.
Qed.

(** The trains that a station has for a direction when the trains are
    collected are those that the feeds hold for it. *)
Lemma collect_trains_contributed (w : Outside) (self : Mtapi)
    (collected : working) (id d : string) :
  d = "N"%string \/ d = "S"%string ->
  collect_trains w (set_last_update (now w) self) = Ret collected ->
  trains_of d <$> dict_get id (fst collected)
  = (fun _ => contributed w self id d) <$> dict_get id (_stations self).
Proof.
  intros Hd Hc. unfold collect_trains in Hc.
  set (view := fun acc0 : working => trains_of d <$> dict_get id (fst acc0)).
  set (contrib :=
         fun url =>
           match _load_mta_feed w url with
           | Some feed =>
               flat_map
                 (entity_trains (_stops_to_stations self) (now w)
                    (now w + timedelta_minutes (_MAX_MINUTES self)) id d)
                 (entity feed)
           | None => []
           end).
  assert (Hstep : forall s url s',
    url ∈ _FEED_URLS ->
    feed_body w (set_last_update (now w) self) s url = Ret s' ->
    view s' = (fun k => k ++ contrib url) <$> view s).
  { intros s url s' _. unfold feed_body, contrib.
    destruct (_load_mta_feed w url) as [feed|];
      [|intros [= <-]; by rewrite fmap_app_nil].
    apply (for_each_appends _ view).
    intros s1 trip s1' _ H1.
    by apply (entity_body_trains (set_last_update (now w) self) _ _ _ _ _ _ _
                Hd H1). }
  change (view collected
          = (fun _ => flat_map contrib _FEED_URLS) <$> dict_get id (_stations self)).
  rewrite (for_each_appends _ view contrib _ Hstep _ _ Hc).
  unfold view. cbn [fst _stations set_last_update]. rewrite dict_get_map_values.
  destruct (dict_get id (_stations self)); simpl; [|done]. f_equal.
  unfold trains_of. by destruct (String.eqb d "N").
Qed.

Lemma starts_with_iff (d s : string) :
  starts_with d s = true <-> first_char s = Ret d.
Proof.
  unfold starts_with. destruct (first_char s) as [c|e]; [|by split].
  rewrite String.eqb_eq. split; [by intros -> | by intros [= ->]].
Qed.

Lemma update_trains_elem_of (idx : gmap string string) (lo hi : Z)
    (id route_id : string) (update : TripStop) (t : train) :
  t ∈ update_trains idx lo hi id route_id update
  <-> lo <= TripStop_time update <= hi
      /\ idx !! TripStop_stop_id update = Some id
      /\ t = mk_train route_id (TripStop_time update).
Proof.
  unfold update_trains.
  destruct (Z.leb_spec lo (TripStop_time update));
    destruct (Z.leb_spec (TripStop_time update) hi); cbn [andb];
    try (split; [by intros ?%elem_of_nil | intros [? _]; lia]).
  case_bool_decide as Hidx.
  - rewrite list_elem_of_singleton. split; [by intros -> | by intros (_ & _ & ->)].
  - split; [by intros ?%elem_of_nil | by intros (_ & ? & _)].
Qed.

Lemma elem_of_flat_map {A B : Type} (f : A -> list B) (l : list A) (y : B) :
  y ∈ flat_map f l <-> exists x, x ∈ l /\ y ∈ f x.
Proof.
  rewrite list_elem_of_In, in_flat_map.
  split; intros (x & Hx & Hy); exists x; split; by apply list_elem_of_In.
Qed.

Lemma entity_trains_elem_of (idx : gmap string string) (lo hi : Z)
    (id d : string) (trip : FeedEntity) (t : train) :
  t ∈ entity_trains idx lo hi id d trip
  <-> trip_is_valid trip = true
      /\ first_char (trip_direction trip) = Ret d
      /\ exists update,
           update ∈ stop_time_update trip
           /\ lo <= TripStop_time update <= hi
           /\ idx !! TripStop_stop_id update = Some id
           /\ t = mk_train (upper (trip_route_id trip)) (TripStop_time update).
Proof.
  unfold entity_trains. rewrite <- starts_with_iff.
  destruct (trip_is_valid trip); cbn [andb];
    [|split; [by intros ?%elem_of_nil | by intros [? _]]].
  destruct (starts_with d (trip_direction trip));
    [|split; [by intros ?%elem_of_nil | by intros (_ & ? & _)]].
  rewrite elem_of_flat_map. setoid_rewrite update_trains_elem_of.
  split; [intros H; by repeat split | by intros (_ & _ & H)].
Qed.

(** A stop-time update of a trip in direction N or S passes, or adds a
    train, and raises nothing when the index of stops names stations of
    the working copy. *)
Lemma stop_time_update_body_returns (self : Mtapi) (max_time : Z)
    (route_id direction : string) (ft : Z) (acc : working) (update : TripStop) :
  direction = "N"%string \/ direction = "S"%string ->
  (forall k sid, _stops_to_stations self !! k = Some sid ->
     is_Some (dict_get sid (fst acc))) ->
  exists acc',
    stop_time_update_body self max_time route_id direction ft acc update = Ret acc'
    /\ forall k sid, _stops_to_stations self !! k = Some sid ->
         is_Some (dict_get sid (fst acc')).
Proof.
  intros Hdir Hacc. unfold stop_time_update_body.
  destruct (_ || _); [eauto|].
  destruct (_stops_to_stations self !! TripStop_stop_id update) as [sid|] eqn:Hidx;
    [|eauto].
  destruct (Hacc _ _ Hidx) as [station Hget]. rewrite Hget.
  assert (Hadd : exists station',
    add_train route_id direction (TripStop_time update) ft station = Ret station').
  { unfold add_train. destruct Hdir as [->| ->]; simpl; eauto. }
  destruct Hadd as [station' ->]. simpl. eexists. split; [reflexivity|].
  intros k sid' Hk. cbn [fst].
  rewrite (dict_get_replace sid sid' station' station _ Hget).
  destruct (String.eqb sid' sid); [eauto | by apply (Hacc k)].
Qed.

Lemma collect_trains_returns (w : Outside) (self : Mtapi) :
  (forall k sid, _stops_to_stations self !! k = Some sid ->
     is_Some (dict_get sid (_stations self))) ->
  (forall url feed trip,
     url ∈ _FEED_URLS -> _load_mta_feed w url = Some feed ->
     trip ∈ entity feed -> trip_is_valid trip = true ->
     starts_with "N" (trip_direction trip) || starts_with "S" (trip_direction trip)
     = true) ->
  exists collected, collect_trains w self = Ret collected.
Proof.
  intros Hidx Hdirs. unfold collect_trains.
  destruct (for_each_returns
              (fun acc : working =>
                 forall k sid, _stops_to_stations self !! k = Some sid ->
                   is_Some (dict_get sid (fst acc)))
              (feed_body w self) _FEED_URLS) with
    (s := (map (fun item => (fst item, clear_train_data (snd item)))
             (_stations self), ∅ : gmap string (gset string)))
    as (collected & Hc & _); [| |by exists collected].
  - intros acc url Hurl Hacc. unfold feed_body.
    destruct (_load_mta_feed w url) as [feed|] eqn:Hfeed; [|eauto].
    apply for_each_returns; [|done].
    intros acc1 trip Htrip Hacc1. unfold entity_body.
    destruct (trip_is_valid trip) eqn:Hvalid; cbn [negb]; [|eauto].
    specialize (Hdirs url feed trip Hurl Hfeed Htrip Hvalid).
    unfold starts_with in Hdirs.
    destruct (first_char (trip_direction trip)) as [c|e]; [|discriminate].
    simpl. apply for_each_returns; [|done].
    intros acc2 update _ Hacc2. apply stop_time_update_body_returns; [|done].
    apply orb_true_iff in Hdirs as [H|H]; apply String.eqb_eq in H; auto.
  - intros k sid Hk. cbn [fst]. rewrite dict_get_map_values.
    destruct (Hidx k sid Hk) as [st ->]. by eexists.
Qed.

(** C7. A rebuild at the time [now] gives a station, for each direction,
    the trains of the stop-time updates of the feeds whose time lies in
    [now, now + max_minutes] and whose stop id the index of stops gives to
    the station, one train for each such update and no other train,
    sorted by time and cut at [max_trains]; an update outside the window
    or with an unknown stop id counts for nothing and does not stop the
    rebuild, which returns whatever such updates the feeds hold; and with
    [max_minutes = 30] no train is 45 minutes away. *)
Theorem C7_update_contributes_iff (w : Outside) (self : Mtapi) :
  (forall self' id st,
     _update w self = (Ret tt, self') ->
     dict_get id (_stations self') = Some st ->
     trains_N st
     = slice_to (_MAX_TRAINS self)
         (sorted Z.ltb train_time (contributed w self id "N"))
     /\ trains_S st
        = slice_to (_MAX_TRAINS self)
            (sorted Z.ltb train_time (contributed w self id "S")))
  /\ (forall id d t,
        t ∈ contributed w self id d
        <-> exists url feed trip update,
              url ∈ _FEED_URLS
              /\ _load_mta_feed w url = Some feed
              /\ trip ∈ entity feed
              /\ trip_is_valid trip = true
              /\ first_char (trip_direction trip) = Ret d
              /\ update ∈ stop_time_update trip
              /\ now w <= TripStop_time update
                 <= now w + timedelta_minutes (_MAX_MINUTES self)
              /\ _stops_to_stations self !! TripStop_stop_id update = Some id
              /\ t = mk_train (upper (trip_route_id trip)) (TripStop_time update))
  /\ (_MAX_MINUTES self = 30 ->
      forall self' id st t,
        _update w self = (Ret tt, self') ->
        dict_get id (_stations self') = Some st ->
        t ∈ trains_N st ++ trains_S st ->
        train_time t <> now w + timedelta_minutes 45)
  /\ (_GET_SERVICE_ALERTS self = false ->
      (forall k sid, _stops_to_stations self !! k = Some sid ->
         is_Some (dict_get sid (_stations self))) ->
      (forall url feed trip,
         url ∈ _FEED_URLS -> _load_mta_feed w url = Some feed ->
         trip ∈ entity feed -> trip_is_valid trip = true ->
         starts_with "N" (trip_direction trip)
         || starts_with "S" (trip_direction trip) = true) ->
      fst (_update w self) = Ret tt).
Proof.
  assert (Hpublished : forall self' id st,
    _update w self = (Ret tt, self') ->
    dict_get id (_stations self') = Some st ->
    trains_N st
    = slice_to (_MAX_TRAINS self)
        (sorted Z.ltb train_time (contributed w self id "N"))
    /\ trains_S st
       = slice_to (_MAX_TRAINS self)
           (sorted Z.ltb train_time (contributed w self id "S"))).
  { intros self' id st Hup Hget.
    apply _update_dict_get in Hup as (collected & Hc & _ & _ & _ & Hall).
    specialize (Hall id). rewrite Hget in Hall.
    destruct (dict_get id (fst collected)) as [st0|] eqn:Hget0; [|done].
    destruct Hall as (_ & HN & HS & _). simpl in HN, HS.
    pose proof (collect_trains_contributed w self collected id "N"
                  (or_introl eq_refl) Hc) as HcN.
    pose proof (collect_trains_contributed w self collected id "S"
                  (or_intror eq_refl) Hc) as HcS.
    rewrite Hget0 in HcN, HcS.
    destruct (dict_get id (_stations self)); [|discriminate].
    injection HcN as HcN. injection HcS as HcS.
    unfold trains_of in HcN, HcS. simpl in HcN, HcS.
    by rewrite <- HN, <- HS, HcN, HcS. }
  assert (Hmember : forall id d t,
    t ∈ contributed w self id d
    <-> exists url feed trip update,
          url ∈ _FEED_URLS
          /\ _load_mta_feed w url = Some feed
          /\ trip ∈ entity feed
          /\ trip_is_valid trip = true
          /\ first_char (trip_direction trip) = Ret d
          /\ update ∈ stop_time_update trip
          /\ now w <= TripStop_time update
             <= now w + timedelta_minutes (_MAX_MINUTES self)
          /\ _stops_to_stations self !! TripStop_stop_id update = Some id
          /\ t = mk_train (upper (trip_route_id trip)) (TripStop_time update)).
  { intros id d t. unfold contributed. rewrite elem_of_flat_map. split.
    - intros (url & Hurl & Ht).
      destruct (_load_mta_feed w url) as [feed|] eqn:Hfeed;
        [|by apply elem_of_nil in Ht].
      apply elem_of_flat_map in Ht as (trip & Htrip & Ht).
      apply entity_trains_elem_of in Ht
        as (Hvalid & Hdir & update & Hu & Hwin & Hidx & ->).
      by exists url, feed, trip, update.
    - intros (url & feed & trip & update & Hurl & Hfeed & Htrip & Hvalid & Hdir
              & Hu & Hwin & Hidx & ->).
      exists url. split; [done|]. rewrite Hfeed. apply elem_of_flat_map.
      exists trip. split; [done|]. apply entity_trains_elem_of.
      split; [done|]. split; [done|]. by exists update. }
  split; [exact Hpublished|]. split; [exact Hmember|]. split.
  - intros Hmm self' id st t Hup Hget Ht.
    destruct (Hpublished self' id st Hup Hget) as [HN HS].
    assert (Hin : t ∈ contributed w self id "N" \/ t ∈ contributed w self id "S").
    { apply elem_of_app in Ht as [Ht|Ht]; [left; rewrite HN in Ht
                                          | right; rewrite HS in Ht];
        apply slice_to_subseteq in Ht;
        by rewrite (sorted_perm Z.ltb train_time) in Ht. }
    assert (Hlate : forall d, t ∈ contributed w self id d ->
                      train_time t <> now w + timedelta_minutes 45).
    { intros d Hd. apply Hmember in Hd
        as (url & feed & trip & update & _ & _ & _ & _ & _ & _ & Hwin & _ & ->).
      simpl. rewrite Hmm in Hwin. unfold timedelta_minutes in *. lia. }
    destruct Hin as [Hin|Hin]; by apply (Hlate _ Hin).
  - intros Hoff Hidx Hdirs.
    destruct (collect_trains_returns w (set_last_update (now w) self))
      as [collected Hc]; [done | done |].
    unfold _update. rewrite Hc. cbn [mbind pyres_bind].
    unfold finish_stations. cbn [_GET_SERVICE_ALERTS set_last_update].
    by rewrite Hoff.
Qed.

Lemma C7_update_contributes_iff_witness :
  (trains_N (demo_station 10 false "A")
   = slice_to 10
       (sorted Z.ltb train_time
          (contributed demo_outside (demo_blank 10 false) "A" "N"))
   /\ trains_S (demo_station 10 false "A")
      = slice_to 10
          (sorted Z.ltb train_time
             (contributed demo_outside (demo_blank 10 false) "A" "S")))
  /\ contributed demo_outside (demo_blank 10 false) "A" "N"
     = [ mk_train "7" (demo_now + timedelta_minutes 5);
         mk_train "7" (demo_now + timedelta_minutes 7);
         mk_train "C" (demo_now + timedelta_minutes 2) ]
  /\ contributed demo_outside (demo_blank 10 false) "B" "N" = [].
Proof.
  destruct (C7_update_contributes_iff demo_outside (demo_blank 10 false))
    as (Hpublished & _).
  split; [|split; reflexivity].
  apply (Hpublished (demo_mtapi 10 false) "A").
  - apply demo_update_returns. vm_compute. reflexivity.
  - by_evaluation.
Defined.

(** ** C6: which reference attaches an alert to a station *)















